(** * folly::SSLContext: a shallow embedding and its verified properties

    Source: folly/io/async/SSLContext.h and folly/io/async/SSLContext.cpp.

    The embedding keeps the names of the C++ members.  Code of the class is
    translated statement by statement; what belongs to OpenSSL (parsing,
    cryptography, the file system) is an interface, [OpenSSL], whose
    operations the class calls and whose results it tests. *)

From Stdlib Require Import ZArith Ascii String List Bool Lia DecimalString.
From stdpp Require Import base option list gmap.

Open Scope Z_scope.

(** ** Outcomes of a call

    A member function returns, throws a C++ exception, or ends the process
    (glog's [CHECK] and [LOG(FATAL)]).  The three are kept apart: an
    exception can be caught by the caller, a failed [CHECK] cannot. *)

Inductive exception : Type :=
| invalid_argument (what : string)
| runtime_error (what : string).

Inductive outcome (A : Type) : Type :=
| Returns (a : A)
| Throws (e : exception)
| CheckFailed (condition : string).

Arguments Returns {A} a.
Arguments Throws {A} e.
Arguments CheckFailed {A} condition.

(** ** Verification policy (SSLContext.h, the three enums) *)

Inductive SSLVerifyPeerEnum : Type :=
| USE_CTX
| VERIFY
| VERIFY_REQ_CLIENT_CERT
| NO_VERIFY.

Inductive VerifyClientCertificate : Type :=
| ALWAYS
| IF_PRESENTED
| DO_NOT_REQUEST.

(** [VerifyServerCertificate::IF_PRESENTED] is written [SERVER_IF_PRESENTED]:
    the name [IF_PRESENTED] is taken by the client's enum. *)
Inductive VerifyServerCertificate : Type :=
| SERVER_IF_PRESENTED
| IGNORE_VERIFY_RESULT.

(** The mode bits of <openssl/ssl.h>. *)
Definition SSL_VERIFY_NONE : Z := 0.
Definition SSL_VERIFY_PEER : Z := 1.
Definition SSL_VERIFY_FAIL_IF_NO_PEER_CERT : Z := 2.
Definition SSL_VERIFY_CLIENT_ONCE : Z := 4.

(** [static int getVerificationMode(const VerifyClientCertificate&)] *)
Definition getVerificationMode_client (verifyClient : VerifyClientCertificate) : Z :=
  match verifyClient with
  | ALWAYS => Z.lor SSL_VERIFY_PEER SSL_VERIFY_FAIL_IF_NO_PEER_CERT
  | IF_PRESENTED => SSL_VERIFY_PEER
  | DO_NOT_REQUEST => SSL_VERIFY_NONE
  end.

(** [static int getVerificationMode(const VerifyServerCertificate&)] *)
Definition getVerificationMode_server (verifyServer : VerifyServerCertificate) : Z :=
  match verifyServer with
  | SERVER_IF_PRESENTED => SSL_VERIFY_PEER
  | IGNORE_VERIFY_RESULT => SSL_VERIFY_NONE
  end.

(** [static int getVerificationMode(const SSLVerifyPeerEnum&)]: the [CHECK]
    comes first, the [switch] after it. *)
Definition getVerificationMode_peer (verifyPeer : SSLVerifyPeerEnum) : outcome Z :=
  match verifyPeer with
  | USE_CTX => CheckFailed "verifyPeer != SSLVerifyPeerEnum::USE_CTX"
  | VERIFY => Returns SSL_VERIFY_PEER
  | VERIFY_REQ_CLIENT_CERT =>
      Returns (Z.lor SSL_VERIFY_PEER SSL_VERIFY_FAIL_IF_NO_PEER_CERT)
  | NO_VERIFY => Returns SSL_VERIFY_NONE
  end.

(** ** Host name matching (SSLContext.cpp, [matchName])

    A C string is the list of its characters before the terminating NUL;
    reading at the length yields the NUL. *)

Definition NUL : ascii := "000"%char.

Definition char_at (s : list ascii) (k : nat) : ascii := nth k s NUL.

(** [toupper] of the "C" locale: only [a]..[z] change. *)
Definition toupper (c : ascii) : ascii :=
  let n := nat_of_ascii c in
  if ((97 <=? n) && (n <=? 122))%nat then ascii_of_nat (n - 32) else c.

(** The inner loop [while (host[j] != '.' && host[j] != '\0') j++;]. *)
Fixpoint skip_component (fuel : nat) (host : list ascii) (j : nat) : option nat :=
  match fuel with
  | O => None
  | S fuel' =>
      if negb (Ascii.eqb (char_at host j) ".") && negb (Ascii.eqb (char_at host j) NUL)
      then skip_component fuel' host (S j)
      else Some j
  end.

(** The outer loop; it hands back the final [(i, j)]. *)
Fixpoint matchName_loop (fuel : nat) (host pattern : list ascii) (size : Z)
    (i j : nat) : option (nat * nat) :=
  match fuel with
  | O => None
  | S fuel' =>
      if (Z.of_nat i <? size) && negb (Ascii.eqb (char_at host j) NUL) then
        if Ascii.eqb (toupper (char_at pattern i)) (toupper (char_at host j)) then
          matchName_loop fuel' host pattern size (S i) (S j)
        else if Ascii.eqb (char_at pattern i) "*" then
          match skip_component (S (length host)) host j with
          | Some j' => matchName_loop fuel' host pattern size (S i) j'
          | None => None
          end
        else Some (i, j)
      else Some (i, j)
  end.

(** [static bool matchName(const char* host, const char* pattern, int size)].
    [None] would mean that the loops did not finish within the fuel;
    [matchName_total] shows that this never happens.  The indices [i] and
    [j] are natural numbers: for strings shorter than 2^31 an [int] never
    wraps here. *)
Definition matchName (host pattern : list ascii) (size : Z) : option bool :=
  match matchName_loop (S (Z.to_nat size)) host pattern size 0 0 with
  | Some (i, j) => Some ((Z.of_nat i =? size) && Ascii.eqb (char_at host j) NUL)
  | None => None
  end.

Definition cstr (s : string) : list ascii := list_ascii_of_string s.

(** ** Machine integers: [int] and [unsigned] are 32 bits wide *)

Definition to_unsigned (z : Z) : Z := z mod 2 ^ 32.

Definition to_int (z : Z) : Z := (z + 2 ^ 31) mod 2 ^ 32 - 2 ^ 31.

(** ** The OpenSSL interface

    What the class cannot decide by itself: parsing of PEM data, what the
    library keeps in the certificate and key slots of an [SSL_CTX], whether
    a key belongs to a certificate, the files behind a path, and whether
    the library could allocate.  Every operation is the C function of the
    same name, with the part of the native state it works on made explicit. *)

Definition BIO : Type := list ascii.

Class OpenSSL : Type := {
  X509 : Type;
  EVP_PKEY : Type;
  (** certificate, chain and private key held by an [SSL_CTX] *)
  CERT : Type;
  X509_STORE : Type;
  X509_NAMES : Type;
  (** the slots of a fresh [SSL_CTX]; [None] when [SSL_CTX_new] returns null *)
  SSL_CTX_new : option (CERT * X509_STORE);
  SSL_CTX_up_ref_ok : bool;
  BIO_new_ok : bool;
  PEM_read_bio_X509 : BIO -> option X509 * BIO;
  PEM_read_bio_PrivateKey : BIO -> option EVP_PKEY * BIO;
  SSL_CTX_use_certificate : CERT -> X509 -> Z * CERT;
  SSL_CTX_add1_chain_cert : CERT -> X509 -> Z * CERT;
  SSL_CTX_use_PrivateKey : CERT -> EVP_PKEY -> Z * CERT;
  SSL_CTX_use_certificate_chain_file : CERT -> string -> Z * CERT;
  SSL_CTX_use_PrivateKey_file : CERT -> string -> Z * CERT;
  SSL_CTX_check_private_key : CERT -> Z;
  SSL_CTX_load_verify_locations : X509_STORE -> string -> Z * X509_STORE;
  SSL_load_client_CA_file : option string -> option X509_NAMES;
  (** does the copy made by [SSL_CTX_set_alpn_protos] succeed? *)
  alpn_memdup_ok : option (list ascii) -> bool;
  (** the codes a failing call of the named function leaves on the queue *)
  ERR_raised : string -> list positive;
  ERR_reason_error_string : positive -> option string
}.

(** ** State *)

(** [struct NextProtocolsItem] *)
Record NextProtocolsItem : Type := mkNextProtocolsItem {
  weight : Z;
  protocols : list string
}.

Inductive SSLVersion : Type := SSLv2 | SSLv3 | TLSv1 | TLSv1_2 | TLSv1_3.

(** [class SSLAcceptRunner]: the base class runs the accept inline; a
    subclass given by the user is identified by a tag. *)
Inductive SSLAcceptRunner : Type :=
| InlineRunner
| CustomRunner (tag : nat).

(** The only ALPN selection callback the class registers. *)
Inductive alpn_select_cb_t : Type := alpnSelectCallback.

(** Configuration calls whose effect no operation modelled here reads back;
    they are recorded in the order in which they were made. *)
Inductive ctx_call : Type :=
| Call_set_max_proto_version (v : Z)
| Call_set_min_proto_version (v : Z)
| Call_set_mode (m : Z)
| Call_set_options (o : Z)
| Call_set_session_cache_mode (m : Z)
| Call_set_verify (mode : Z)
| Call_set_ex_data
| Call_sess_set_new_cb
| Call_sess_set_remove_cb
| Call_set_tlsext_servername_callback
| Call_set_tlsext_servername_arg
| Call_up_ref.

Section State.
Context `{OpenSSL}.

(** The native [SSL_CTX] behind [ctx_]. *)
Record SSL_CTX : Type := mkSSL_CTX {
  cert : CERT;
  cert_store : X509_STORE;
  client_CA_list : option X509_NAMES;
  alpn_select_cb : option alpn_select_cb_t;
  alpn_protos : list ascii;
  calls : list ctx_call
}.

(** [struct AdvertisedNextProtocolsItem]: a pointer into the heap
    ([0] is the null pointer) and the length of the buffer. *)
Record AdvertisedNextProtocolsItem : Type := mkAdvertised {
  adv_protocols : nat;
  adv_length : Z
}.

(** The data members of [SSLContext] that the operations below use. *)
Record SSLContext : Type := mkSSLContext {
  ctx_ : SSL_CTX;
  verifyPeer_ : SSLVerifyPeerEnum;
  verifyClient_ : VerifyClientCertificate;
  verifyServer_ : VerifyServerCertificate;
  (** [None]: never assigned *)
  checkPeerName_ : option bool;
  peerFixedName_ : string;
  (** a [unique_ptr]; [None] is the null pointer *)
  sslAcceptRunner_ : option SSLAcceptRunner;
  advertisedNextProtocols_ : list AdvertisedNextProtocolsItem;
  advertisedNextProtocolWeights_ : list Z;
  (** the weights the [discrete_distribution] was built from *)
  nextProtocolDistribution_ : list Z
}.

(** Arrays made by [new unsigned char[n]], by address. *)
Record Heap : Type := mkHeap {
  cells : gmap nat (list ascii);
  (** the highest address handed out so far *)
  brk : nat
}.

(** The object, the thread's OpenSSL error queue and [errno], the lines
    written with [LOG(ERROR)], and the heap. *)
Record World : Type := mkWorld {
  self : SSLContext;
  ERR_queue : list positive;
  errno : Z;
  LOG_ERROR : list string;
  heap : Heap
}.

Definition with_self (f : SSLContext -> SSLContext) (w : World) : World :=
  mkWorld (f (self w)) (ERR_queue w) (errno w) (LOG_ERROR w) (heap w).

Definition with_ERR_queue (f : list positive -> list positive) (w : World) : World :=
  mkWorld (self w) (f (ERR_queue w)) (errno w) (LOG_ERROR w) (heap w).

Definition with_LOG_ERROR (f : list string -> list string) (w : World) : World :=
  mkWorld (self w) (ERR_queue w) (errno w) (f (LOG_ERROR w)) (heap w).

Definition with_heap (f : Heap -> Heap) (w : World) : World :=
  mkWorld (self w) (ERR_queue w) (errno w) (LOG_ERROR w) (f (heap w)).

Definition with_ctx_ (f : SSL_CTX -> SSL_CTX) (c : SSLContext) : SSLContext :=
  mkSSLContext (f (ctx_ c)) (verifyPeer_ c) (verifyClient_ c) (verifyServer_ c)
    (checkPeerName_ c) (peerFixedName_ c) (sslAcceptRunner_ c)
    (advertisedNextProtocols_ c) (advertisedNextProtocolWeights_ c)
    (nextProtocolDistribution_ c).

Definition set_verifyPeer_ (v : SSLVerifyPeerEnum) (c : SSLContext) : SSLContext :=
  mkSSLContext (ctx_ c) v (verifyClient_ c) (verifyServer_ c)
    (checkPeerName_ c) (peerFixedName_ c) (sslAcceptRunner_ c)
    (advertisedNextProtocols_ c) (advertisedNextProtocolWeights_ c)
    (nextProtocolDistribution_ c).

Definition set_verifyClient_ (v : VerifyClientCertificate) (c : SSLContext) : SSLContext :=
  mkSSLContext (ctx_ c) (verifyPeer_ c) v (verifyServer_ c)
    (checkPeerName_ c) (peerFixedName_ c) (sslAcceptRunner_ c)
    (advertisedNextProtocols_ c) (advertisedNextProtocolWeights_ c)
    (nextProtocolDistribution_ c).

Definition set_verifyServer_ (v : VerifyServerCertificate) (c : SSLContext) : SSLContext :=
  mkSSLContext (ctx_ c) (verifyPeer_ c) (verifyClient_ c) v
    (checkPeerName_ c) (peerFixedName_ c) (sslAcceptRunner_ c)
    (advertisedNextProtocols_ c) (advertisedNextProtocolWeights_ c)
    (nextProtocolDistribution_ c).

Definition set_peerName (check : bool) (name : string) (c : SSLContext) : SSLContext :=
  mkSSLContext (ctx_ c) (verifyPeer_ c) (verifyClient_ c) (verifyServer_ c)
    (Some check) name (sslAcceptRunner_ c)
    (advertisedNextProtocols_ c) (advertisedNextProtocolWeights_ c)
    (nextProtocolDistribution_ c).

Definition set_checkPeerName_ (check : option bool) (c : SSLContext) : SSLContext :=
  mkSSLContext (ctx_ c) (verifyPeer_ c) (verifyClient_ c) (verifyServer_ c)
    check (peerFixedName_ c) (sslAcceptRunner_ c)
    (advertisedNextProtocols_ c) (advertisedNextProtocolWeights_ c)
    (nextProtocolDistribution_ c).

Definition set_sslAcceptRunner_ (r : option SSLAcceptRunner) (c : SSLContext) : SSLContext :=
  mkSSLContext (ctx_ c) (verifyPeer_ c) (verifyClient_ c) (verifyServer_ c)
    (checkPeerName_ c) (peerFixedName_ c) r
    (advertisedNextProtocols_ c) (advertisedNextProtocolWeights_ c)
    (nextProtocolDistribution_ c).

Definition set_advertised (items : list AdvertisedNextProtocolsItem) (weights : list Z)
    (c : SSLContext) : SSLContext :=
  mkSSLContext (ctx_ c) (verifyPeer_ c) (verifyClient_ c) (verifyServer_ c)
    (checkPeerName_ c) (peerFixedName_ c) (sslAcceptRunner_ c)
    items weights (nextProtocolDistribution_ c).

Definition set_nextProtocolDistribution_ (weights : list Z) (c : SSLContext) : SSLContext :=
  mkSSLContext (ctx_ c) (verifyPeer_ c) (verifyClient_ c) (verifyServer_ c)
    (checkPeerName_ c) (peerFixedName_ c) (sslAcceptRunner_ c)
    (advertisedNextProtocols_ c) (advertisedNextProtocolWeights_ c) weights.

Definition set_cert (x : CERT) (n : SSL_CTX) : SSL_CTX :=
  mkSSL_CTX x (cert_store n) (client_CA_list n) (alpn_select_cb n) (alpn_protos n) (calls n).

Definition set_cert_store (s : X509_STORE) (n : SSL_CTX) : SSL_CTX :=
  mkSSL_CTX (cert n) s (client_CA_list n) (alpn_select_cb n) (alpn_protos n) (calls n).

Definition set_client_CA_list (l : option X509_NAMES) (n : SSL_CTX) : SSL_CTX :=
  mkSSL_CTX (cert n) (cert_store n) l (alpn_select_cb n) (alpn_protos n) (calls n).

Definition set_alpn_select_cb (cb : option alpn_select_cb_t) (n : SSL_CTX) : SSL_CTX :=
  mkSSL_CTX (cert n) (cert_store n) (client_CA_list n) cb (alpn_protos n) (calls n).

Definition set_alpn_protos (p : list ascii) (n : SSL_CTX) : SSL_CTX :=
  mkSSL_CTX (cert n) (cert_store n) (client_CA_list n) (alpn_select_cb n) p (calls n).

Definition add_call (c : ctx_call) (n : SSL_CTX) : SSL_CTX :=
  mkSSL_CTX (cert n) (cert_store n) (client_CA_list n) (alpn_select_cb n) (alpn_protos n)
    (calls n ++ [c]).

(** ** The monad of member functions: state, exceptions, fatal checks.
    What a call did to the state before it threw stays done. *)

Definition M (A : Type) : Type := World -> outcome A * World.

Definition ret {A} (a : A) : M A := fun w => (Returns a, w).

Definition bind {A B} (m : M A) (k : A -> M B) : M B :=
  fun w =>
    match m w with
    | (Returns a, w') => k a w'
    | (Throws e, w') => (Throws e, w')
    | (CheckFailed c, w') => (CheckFailed c, w')
    end.

Definition throw {A} (e : exception) : M A := fun w => (Throws e, w).

Definition CHECK (cond : bool) (text : string) : M unit :=
  fun w => if cond then (Returns tt, w) else (CheckFailed text, w).

Definition gets {A} (f : World -> A) : M A := fun w => (Returns (f w), w).

Definition modify (f : World -> World) : M unit := fun w => (Returns tt, f w).

End State.

Declare Scope cxx_scope.
Delimit Scope cxx_scope with cxx.
Notation "x <- m ;; k" := (bind m (fun x => k))
  (at level 100, m at next level, right associativity) : cxx_scope.
Notation "m ;;; k" := (bind m (fun _ => k))
  (at level 100, right associativity) : cxx_scope.

(** ** Formatting used by [getErrors] *)

Definition hex_digit (d : Z) : ascii :=
  ascii_of_nat (Z.to_nat (if d <? 10 then 48 + d else 55 + d)).

(** The [digits] low hexadecimal digits of [z], most significant first. *)
Fixpoint hex_digits (digits : nat) (z : Z) : list ascii :=
  match digits with
  | O => []
  | S d => hex_digits d (z / 16) ++ [hex_digit (z mod 16)]
  end.

Fixpoint hex_width (fuel : nat) (z : Z) : nat :=
  match fuel with
  | O => O
  | S f => if z =? 0 then O else S (hex_width f (z / 16))
  end.

(** [%08lX] of an [unsigned long]. *)
Definition format_08lX (z : Z) : string :=
  string_of_list_ascii (hex_digits (Nat.max 8 (hex_width 16 z)) z).

(** [folly::to<std::string>(int)] *)
Definition to_string (z : Z) : string :=
  DecimalString.NilZero.string_of_int (Z.to_int z).

Definition string_empty (s : string) : bool :=
  match s with EmptyString => true | _ => false end.

Section Code.
Context `{OpenSSL}.
Local Open Scope cxx_scope.

(** *** The error queue *)

Definition ERR_put_errors (codes : list positive) : M unit :=
  modify (with_ERR_queue (fun q => q ++ codes)).

Definition ERR_clear_error : M unit :=
  modify (with_ERR_queue (fun _ => [])).

(** A library call that reports failure leaves its codes on the queue. *)
Definition report (name : string) (rc : Z) : M unit :=
  if rc <=? 0 then ERR_put_errors (ERR_raised name) else ret tt.

(** The [while ((errorCode = ERR_get_error()) != 0)] loop: one round per
    queued code, oldest first. *)
Fixpoint getErrors_loop (queue : list positive) (errors : string) : string :=
  match queue with
  | [] => errors
  | errorCode :: queue' =>
      let errors := if string_empty errors then errors else (errors ++ "; ")%string in
      let reason :=
        match ERR_reason_error_string errorCode with
        | Some reason => reason
        | None => ("SSL error # " ++ format_08lX (Zpos errorCode))%string
        end in
      getErrors_loop queue' (errors ++ reason)%string
  end.

(** [static std::string getErrors(int errnoCopy)]; it empties the queue. *)
Definition getErrors_errno (errnoCopy : Z) : M string :=
  queue <- gets ERR_queue ;;
  ERR_clear_error ;;;
  let errors := getErrors_loop queue "" in
  ret (if string_empty errors then ("error code: " ++ to_string errnoCopy)%string else errors).

(** [static std::string getErrors() { return getErrors(errno); }] *)
Definition getErrors : M string :=
  e <- gets errno ;; getErrors_errno e.

(** *** Library calls on the state behind [ctx_] *)

Definition on_CERT (name : string) (f : CERT -> Z * CERT) : M Z :=
  c <- gets (fun w => cert (ctx_ (self w))) ;;
  modify (with_self (with_ctx_ (set_cert (snd (f c))))) ;;;
  report name (fst (f c)) ;;;
  ret (fst (f c)).

Definition on_X509_STORE (name : string) (f : X509_STORE -> Z * X509_STORE) : M Z :=
  s <- gets (fun w => cert_store (ctx_ (self w))) ;;
  modify (with_self (with_ctx_ (set_cert_store (snd (f s))))) ;;;
  report name (fst (f s)) ;;;
  ret (fst (f s)).

Definition configure (c : ctx_call) : M unit :=
  modify (with_self (with_ctx_ (add_call c))).

(** A memory BIO is the bytes not yet read.  [BIO_write] with a positive
    length appends that many bytes and returns the length; otherwise it
    writes nothing and returns 0. *)
Definition BIO_write (bio : BIO) (data : list ascii) (len : Z) : Z * BIO :=
  if 0 <? len then (len, bio ++ take (Z.to_nat len) data) else (0, bio).

Definition read_X509 (bio : BIO) : M (option X509 * BIO) :=
  match PEM_read_bio_X509 bio with
  | (Some x, bio') => ret (Some x, bio')
  | (None, bio') =>
      ERR_put_errors (ERR_raised "PEM_read_bio_X509") ;;; ret (None, bio')
  end.

Definition read_PrivateKey (bio : BIO) : M (option EVP_PKEY * BIO) :=
  match PEM_read_bio_PrivateKey bio with
  | (Some k, bio') => ret (Some k, bio')
  | (None, bio') =>
      ERR_put_errors (ERR_raised "PEM_read_bio_PrivateKey") ;;; ret (None, bio')
  end.

(** *** Verification options *)

(** [setVerificationOption(const SSLVerifyPeerEnum&)] *)
Definition setVerificationOption_peer (verifyPeer : SSLVerifyPeerEnum) : M unit :=
  CHECK (match verifyPeer with USE_CTX => false | _ => true end)
        "verifyPeer != SSLVerifyPeerEnum::USE_CTX" ;;;
  modify (with_self (set_verifyPeer_ verifyPeer)).

(** [setVerificationOption(const VerifyClientCertificate&)] *)
Definition setVerificationOption_client (verifyClient : VerifyClientCertificate) : M unit :=
  modify (with_self (set_verifyClient_ verifyClient)).

(** [setVerificationOption(const VerifyServerCertificate&)] *)
Definition setVerificationOption_server (verifyServer : VerifyServerCertificate) : M unit :=
  modify (with_self (set_verifyServer_ verifyServer)).

(** [int getVerificationMode()] *)
Definition getVerificationMode : M Z :=
  c <- gets self ;;
  fun w =>
    match getVerificationMode_peer (verifyPeer_ c) with
    | Returns peer =>
        (Returns (Z.lor (Z.lor (getVerificationMode_client (verifyClient_ c))
                               (getVerificationMode_server (verifyServer_ c)))
                        peer), w)
    | Throws e => (Throws e, w)
    | CheckFailed t => (CheckFailed t, w)
    end.

(** [bool needsPeerVerification()] *)
Definition needsPeerVerification : M bool :=
  mode <- getVerificationMode ;;
  ret (negb (mode =? SSL_VERIFY_NONE)).

(** [void authenticate(bool, bool, const std::string&)] *)
Definition authenticate (checkPeerCert checkPeerName : bool) (peerName : string) : M unit :=
  if checkPeerCert then
    modify (with_self (set_peerName checkPeerName peerName)) ;;;
    configure (Call_set_verify
                 (Z.lor (Z.lor SSL_VERIFY_PEER SSL_VERIFY_FAIL_IF_NO_PEER_CERT)
                        SSL_VERIFY_CLIENT_ONCE))
  else
    modify (with_self (set_peerName false "")) ;;;
    configure (Call_set_verify SSL_VERIFY_NONE).

(** *** Certificates and keys *)

(** [void loadCertificate(const char* path, const char* format)] *)
Definition loadCertificate (path format : option string) : M unit :=
  match path, format with
  | Some path, Some format =>
      if String.eqb format "PEM" then
        rc <- on_CERT "SSL_CTX_use_certificate_chain_file"
                (fun c => SSL_CTX_use_certificate_chain_file c path) ;;
        if negb (rc =? 1) then
          errnoCopy <- gets errno ;;
          errors <- getErrors_errno errnoCopy ;;
          throw (runtime_error
                   ("SSL_CTX_use_certificate_chain_file: " ++ path ++ ": " ++ errors)%string)
        else ret tt
      else
        throw (runtime_error ("Unsupported certificate format: " ++ format)%string)
  | _, _ =>
      throw (invalid_argument "loadCertificateChain: either <path> or <format> is nullptr")
  end.

Definition kMaxCertChain : nat := 64.

(** The [for (size_t i = 0; i < kMaxCertChain; i++)] loop of
    [loadCertificateFromBufferPEM], by the number of rounds left, followed
    by the [throw] after the loop. *)
Fixpoint load_chain (rounds : nat) (bio : BIO) : M unit :=
  match rounds with
  | O =>
      throw (runtime_error
               "loadCertificateFromBufferPEM(): Too many certificates in chain")
  | S rounds' =>
      r <- read_X509 bio ;;
      match r with
      | (None, _) => ERR_clear_error
      | (Some x509, bio') =>
          rc <- on_CERT "SSL_CTX_add1_chain_cert"
                  (fun c => SSL_CTX_add1_chain_cert c x509) ;;
          if rc =? 0 then
            errors <- getErrors ;;
            throw (runtime_error ("SSL_CTX_add0_chain_cert: " ++ errors)%string)
          else load_chain rounds' bio'
      end
  end.

(** [void loadCertificateFromBufferPEM(folly::StringPiece cert)];
    [None] is a piece whose [data()] is null. *)
Definition loadCertificateFromBufferPEM (cert : option (list ascii)) : M unit :=
  match cert with
  | None => throw (invalid_argument "loadCertificate: <cert> is nullptr")
  | Some data =>
      if negb BIO_new_ok then
        ERR_put_errors (ERR_raised "BIO_new") ;;;
        errors <- getErrors ;; throw (runtime_error ("BIO_new: " ++ errors)%string)
      else
        let size := Z.of_nat (length data) in
        let (written, bio) := BIO_write [] data (to_int size) in
        if (written <=? 0) || negb (to_unsigned written =? size) then
          errors <- getErrors ;; throw (runtime_error ("BIO_write: " ++ errors)%string)
        else
          r <- read_X509 bio ;;
          match r with
          | (None, _) =>
              errors <- getErrors ;;
              throw (runtime_error ("PEM_read_bio_X509: " ++ errors)%string)
          | (Some x509, bio') =>
              rc <- on_CERT "SSL_CTX_use_certificate"
                      (fun c => SSL_CTX_use_certificate c x509) ;;
              if rc =? 0 then
                errors <- getErrors ;;
                throw (runtime_error ("SSL_CTX_use_certificate: " ++ errors)%string)
              else load_chain kMaxCertChain bio'
          end
  end.

(** [void loadPrivateKey(const char* path, const char* format)] *)
Definition loadPrivateKey (path format : option string) : M unit :=
  match path, format with
  | Some path, Some format =>
      if String.eqb format "PEM" then
        rc <- on_CERT "SSL_CTX_use_PrivateKey_file"
                (fun c => SSL_CTX_use_PrivateKey_file c path) ;;
        if rc =? 0 then
          errors <- getErrors ;;
          throw (runtime_error ("SSL_CTX_use_PrivateKey_file: " ++ errors)%string)
        else ret tt
      else
        throw (runtime_error ("Unsupported private key format: " ++ format)%string)
  | _, _ =>
      throw (invalid_argument "loadPrivateKey: either <path> or <format> is nullptr")
  end.

(** [void loadPrivateKeyFromBufferPEM(folly::StringPiece pkey)] *)
Definition loadPrivateKeyFromBufferPEM (pkey : option (list ascii)) : M unit :=
  match pkey with
  | None => throw (invalid_argument "loadPrivateKey: <pkey> is nullptr")
  | Some data =>
      if negb BIO_new_ok then
        ERR_put_errors (ERR_raised "BIO_new") ;;;
        errors <- getErrors ;; throw (runtime_error ("BIO_new: " ++ errors)%string)
      else
        let size := Z.of_nat (length data) in
        let (written, bio) := BIO_write [] data (to_int size) in
        if (written <=? 0) || negb (to_unsigned written =? size) then
          errors <- getErrors ;; throw (runtime_error ("BIO_write: " ++ errors)%string)
        else
          r <- read_PrivateKey bio ;;
          match r with
          | (None, _) =>
              errors <- getErrors ;;
              throw (runtime_error ("PEM_read_bio_PrivateKey: " ++ errors)%string)
          | (Some key, _) =>
              rc <- on_CERT "SSL_CTX_use_PrivateKey"
                      (fun c => SSL_CTX_use_PrivateKey c key) ;;
              if rc =? 0 then
                errors <- getErrors ;;
                throw (runtime_error ("SSL_CTX_use_PrivateKey: " ++ errors)%string)
              else ret tt
          end
  end.

(** [bool isCertKeyPairValid() const] *)
Definition isCertKeyPairValid : M bool :=
  c <- gets (fun w => cert (ctx_ (self w))) ;;
  report "SSL_CTX_check_private_key" (SSL_CTX_check_private_key c) ;;;
  ret (SSL_CTX_check_private_key c =? 1).

Definition mismatch : exception :=
  runtime_error "SSL certificate and private key do not match".

(** [void loadCertKeyPairFromBufferPEM(StringPiece cert, StringPiece pkey)] *)
Definition loadCertKeyPairFromBufferPEM (cert pkey : option (list ascii)) : M unit :=
  loadCertificateFromBufferPEM cert ;;;
  loadPrivateKeyFromBufferPEM pkey ;;;
  valid <- isCertKeyPairValid ;;
  if negb valid then throw mismatch else ret tt.

(** [void loadCertKeyPairFromFiles(certPath, keyPath, certFormat, keyFormat)] *)
Definition loadCertKeyPairFromFiles (certPath keyPath certFormat keyFormat : option string)
    : M unit :=
  loadCertificate certPath certFormat ;;;
  loadPrivateKey keyPath keyFormat ;;;
  valid <- isCertKeyPairValid ;;
  if negb valid then throw mismatch else ret tt.

(** [void loadTrustedCertificates(const char* path)] *)
Definition loadTrustedCertificates (path : option string) : M unit :=
  match path with
  | None => throw (invalid_argument "loadTrustedCertificates: <path> is nullptr")
  | Some path =>
      rc <- on_X509_STORE "SSL_CTX_load_verify_locations"
              (fun s => SSL_CTX_load_verify_locations s path) ;;
      if rc =? 0 then
        errors <- getErrors ;;
        throw (runtime_error ("SSL_CTX_load_verify_locations: " ++ errors)%string)
      else ERR_clear_error
  end.

(** [void loadTrustedCertificates(X509_STORE* store)] *)
Definition loadTrustedCertificates_store (store : X509_STORE) : M unit :=
  modify (with_self (with_ctx_ (set_cert_store store))).

(** [void loadClientCAList(const char* path)].  A null [path] ends what
    the log line shows after its first piece. *)
Definition loadClientCAList (path : option string) : M unit :=
  match SSL_load_client_CA_file path with
  | None =>
      ERR_put_errors (ERR_raised "SSL_load_client_CA_file") ;;;
      errors <- getErrors ;;
      modify (with_LOG_ERROR (fun l => l ++ [
        match path with
        | Some path => ("Unable to load ca file: " ++ path ++ " " ++ errors)%string
        | None => "Unable to load ca file: "%string
        end]))
  | Some clientCAs =>
      modify (with_self (with_ctx_ (set_client_CA_list (Some clientCAs))))
  end.

(** *** The heap of [new[]] and [delete[]] *)

Definition new_array (n : Z) : M nat :=
  h <- gets heap ;;
  let p := S (brk h) in
  modify (with_heap (fun _ => mkHeap (<[p := replicate (Z.to_nat n) NUL]> (cells h)) p)) ;;;
  ret p.

Definition delete_array (p : nat) : M unit :=
  modify (with_heap (fun h => mkHeap (delete p (cells h)) (brk h))).

(** Writing [bytes] from the start of the array at [p]. *)
Definition write_array (p : nat) (bytes : list ascii) : M unit :=
  modify (with_heap (fun h =>
    mkHeap (alter (fun old => bytes ++ drop (length bytes) old) p (cells h)) (brk h))).

Definition read_array (p : nat) (n : Z) : M (list ascii) :=
  gets (fun w => take (Z.to_nat n) (default [] (cells (heap w) !! p))).

Fixpoint for_each {A} (l : list A) (body : A -> M unit) : M unit :=
  match l with
  | [] => ret tt
  | a :: l' => body a ;;; for_each l' body
  end.

(** *** Application protocol negotiation *)

(** [SSL_CTX_set_alpn_select_cb(ctx_, cb, arg)] *)
Definition SSL_CTX_set_alpn_select_cb (cb : option alpn_select_cb_t) : M unit :=
  modify (with_self (with_ctx_ (set_alpn_select_cb cb))).

(** [SSL_CTX_set_alpn_protos(ctx_, protos, len)]: the library drops the
    list it held and keeps a copy of the new one; it returns 0 when the
    copy was made and 1, with an error queued, when it was not.  [None]
    is the call with a null pointer and length 0. *)
Definition SSL_CTX_set_alpn_protos (protos : option (list ascii)) : M Z :=
  if alpn_memdup_ok protos then
    modify (with_self (with_ctx_ (set_alpn_protos (default [] protos)))) ;;;
    ret 0
  else
    modify (with_self (with_ctx_ (set_alpn_protos []))) ;;;
    ERR_put_errors (ERR_raised "SSL_CTX_set_alpn_protos") ;;;
    ret 1.

(** [void deleteNextProtocolsStrings()] *)
Definition deleteNextProtocolsStrings : M unit :=
  items <- gets (fun w => advertisedNextProtocols_ (self w)) ;;
  for_each items (fun protocols => delete_array (adv_protocols protocols)) ;;;
  modify (with_self (set_advertised [] [])).

(** [void unsetNextProtocols()] *)
Definition unsetNextProtocols : M unit :=
  deleteNextProtocolsStrings ;;;
  SSL_CTX_set_alpn_select_cb None ;;;
  SSL_CTX_set_alpn_protos None ;;;
  ERR_clear_error.

(** The first inner loop of [setRandomizedAdvertisedNextProtocols], which
    sums up [advertised_item.length]; [None] when it meets a name of 256
    characters or more. *)
Fixpoint advertised_length (protos : list string) (length : Z) : option Z :=
  match protos with
  | [] => Some length
  | proto :: protos' =>
      let length := to_unsigned (length + 1) in
      let protoLength := Z.of_nat (String.length proto) in
      if 256 <=? protoLength then None
      else advertised_length protos' (to_unsigned (length + to_unsigned protoLength))
  end.

(** The second inner loop: what it writes through [dst]. *)
Fixpoint wire_format (protos : list string) : list ascii :=
  match protos with
  | [] => []
  | proto :: protos' =>
      let protoLength := (String.length proto mod 256)%nat in
      ascii_of_nat protoLength
        :: take protoLength (list_ascii_of_string proto) ++ wire_format protos'
  end.

(** The loop over [items].  It yields [total_weight], or [None] when the
    function has returned [false] from inside the loop. *)
Fixpoint advertise (items : list NextProtocolsItem) (total_weight : Z) : M (option Z) :=
  match items with
  | [] => ret (Some total_weight)
  | item :: items' =>
      match protocols item with
      | [] => advertise items' total_weight
      | _ :: _ =>
          match advertised_length (protocols item) 0 with
          | None => deleteNextProtocolsStrings ;;; ret None
          | Some length =>
              p <- new_array length ;;
              if (p =? 0)%nat then throw (runtime_error "alloc failure")
              else
                write_array p (wire_format (protocols item)) ;;;
                modify (with_self (fun c =>
                  set_advertised
                    (advertisedNextProtocols_ c ++ [mkAdvertised p length])
                    (advertisedNextProtocolWeights_ c ++ [weight item]) c)) ;;;
                advertise items' (to_int (total_weight + weight item))
          end
      end
  end.

(** [advertisedNextProtocols_[0]] *)
Definition first_advertised : M AdvertisedNextProtocolsItem :=
  gets (fun w => nth 0 (advertisedNextProtocols_ (self w)) (mkAdvertised 0 0)).

(** [bool setRandomizedAdvertisedNextProtocols(const std::list<NextProtocolsItem>&)] *)
Definition setRandomizedAdvertisedNextProtocols (items : list NextProtocolsItem) : M bool :=
  unsetNextProtocols ;;;
  match items with
  | [] => ret false
  | _ :: _ =>
      r <- advertise items 0 ;;
      match r with
      | None => ret false
      | Some total_weight =>
          if total_weight =? 0 then
            deleteNextProtocolsStrings ;;; ret false
          else
            weights <- gets (fun w => advertisedNextProtocolWeights_ (self w)) ;;
            modify (with_self (set_nextProtocolDistribution_ weights)) ;;;
            SSL_CTX_set_alpn_select_cb (Some alpnSelectCallback) ;;;
            item <- first_advertised ;;
            protos <- read_array (adv_protocols item) (adv_length item) ;;
            rc <- SSL_CTX_set_alpn_protos (Some protos) ;;
            ret (rc =? 0)
      end
  end.

(** [bool setAdvertisedNextProtocols(const std::list<std::string>&)] *)
Definition setAdvertisedNextProtocols (protos : list string) : M bool :=
  setRandomizedAdvertisedNextProtocols [mkNextProtocolsItem 1 protos].

(** The loop of [getAdvertisedNextProtocols]: [i] moves forward by at
    least one in every round, so [length alpns] rounds are enough. *)
Fixpoint commas (fuel : nat) (alpns : list ascii) (i : nat) : list ascii :=
  match fuel with
  | O => alpns
  | S fuel' =>
      if (i <? length alpns)%nat then
        let len := nat_of_ascii (char_at alpns i) in
        commas fuel' (<[i := ","%char]> alpns) (i + (len + 1))
      else alpns
  end.

(** [std::string getAdvertisedNextProtocols()] *)
Definition getAdvertisedNextProtocols : M string :=
  items <- gets (fun w => advertisedNextProtocols_ (self w)) ;;
  match items with
  | [] => ret ""%string
  | item :: _ =>
      buffer <- read_array (adv_protocols item) (adv_length item) ;;
      let alpns := take (Z.to_nat (to_unsigned (adv_length item - 1))) (drop 1 buffer) in
      let len := nat_of_ascii (char_at buffer 0) in
      ret (string_of_list_ascii (commas (length alpns) alpns len))
  end.

(** *** Construction *)

Definition TLS1_VERSION : Z := 769.
Definition SSL3_VERSION : Z := 768.
Definition TLS1_2_VERSION : Z := 771.
Definition SSL_MODE_AUTO_RETRY : Z := 4.
Definition SSL_OP_NO_COMPRESSION : Z := 131072.
Definition SSL_SESS_CACHE_BOTH : Z := 3.
Definition SSL_SESS_CACHE_NO_INTERNAL : Z := 768.
Definition SSL_SESS_CACHE_NO_AUTO_CLEAR : Z := 128.

(** [configureProtocolVersion], the branch for OpenSSL 1.1.0 and later.
    The [DCHECK] on the result of the last call exists in debug builds
    only and is left out. *)
Definition configureProtocolVersion (version : SSLVersion) : M unit :=
  configure (Call_set_max_proto_version TLS1_2_VERSION) ;;;
  let minVersion :=
    match version with
    | TLSv1 => TLS1_VERSION
    | SSLv3 => SSL3_VERSION
    | TLSv1_2 => TLS1_2_VERSION
    | TLSv1_3 | SSLv2 => 0
    end in
  configure (Call_set_min_proto_version minVersion).

(** [void setupCtx(SSL_CTX* ctx)] *)
Definition setupCtx : M unit :=
  configure (Call_set_session_cache_mode
               (Z.lor (Z.lor SSL_SESS_CACHE_BOTH SSL_SESS_CACHE_NO_INTERNAL)
                      SSL_SESS_CACHE_NO_AUTO_CLEAR)) ;;;
  configure Call_set_ex_data ;;;
  configure Call_sess_set_new_cb ;;;
  configure Call_sess_set_remove_cb.

(** The default member initializers of the class definition.  A member
    without one keeps what the storage held, except the smart pointers
    and containers, which start out empty. *)
Definition default_members (storage : SSLContext) : SSLContext :=
  mkSSLContext (ctx_ storage) NO_VERIFY DO_NOT_REQUEST IGNORE_VERIFY_RESULT
    None ""%string None [] [] [].

(** [explicit SSLContext(SSLVersion version = TLSv1_2)], built with SNI.
    It runs on the storage of the new object: the default member
    initializers come first, the body after them.  [folly::ssl::init()],
    the once-per-process set-up of the library, has no part in the state
    kept here. *)
Definition SSLContext_version (version : SSLVersion) : M unit :=
  modify (with_self default_members) ;;;
  match version with
  | TLSv1_3 =>
      throw (runtime_error "A minimum TLS version of TLS 1.3 is currently unsupported.")
  | _ =>
      match SSL_CTX_new with
      | None =>
          ERR_put_errors (ERR_raised "SSL_CTX_new") ;;;
          errors <- getErrors ;;
          throw (runtime_error ("SSL_CTX_new: " ++ errors)%string)
      | Some (c, s) =>
          modify (with_self (with_ctx_ (fun _ => mkSSL_CTX c s None None [] []))) ;;;
          configureProtocolVersion version ;;;
          configure (Call_set_mode SSL_MODE_AUTO_RETRY) ;;;
          modify (with_self (set_checkPeerName_ (Some false))) ;;;
          configure (Call_set_options SSL_OP_NO_COMPRESSION) ;;;
          modify (with_self (set_sslAcceptRunner_ (Some InlineRunner))) ;;;
          setupCtx ;;;
          configure Call_set_tlsext_servername_callback ;;;
          configure Call_set_tlsext_servername_arg
      end
  end.

(** [explicit SSLContext(SSL_CTX* ctx)]: [ctx_] is initialized from the
    argument, the other members as their declarations say; the body is
    [setupCtx] and the reference count. *)
Definition SSLContext_ctx (ctx : SSL_CTX) : M unit :=
  modify (with_self (fun storage => with_ctx_ (fun _ => ctx) (default_members storage))) ;;;
  setupCtx ;;;
  if negb SSL_CTX_up_ref_ok
  then throw (runtime_error "Failed to increment SSL_CTX refcount")
  else configure Call_up_ref.

(** *** The accept runner *)

(** [void sslAcceptRunner(std::unique_ptr<SSLAcceptRunner> runner)] *)
Definition set_sslAcceptRunner (runner : option SSLAcceptRunner) : M unit :=
  match runner with
  | None => modify (with_LOG_ERROR (fun l => l ++ ["Ignore invalid runner"%string]))
  | Some r => modify (with_self (set_sslAcceptRunner_ (Some r)))
  end.

(** [const SSLAcceptRunner* sslAcceptRunner()] *)
Definition sslAcceptRunner : M (option SSLAcceptRunner) :=
  gets (fun w => sslAcceptRunner_ (self w)).

End Code.

(** ** Host name matching: the specification, and the scan on lists *)

(** Where a [*] stops: at the end of the host or in front of a dot. *)
Definition at_label_end (host : list ascii) : Prop :=
  match host with
  | [] => True
  | d :: _ => d = "."%char
  end.

(** The host name matcher in the words of the specification: the pattern
    consumes the whole host; a [*] stands for the characters of the host, zero
    or more, up to but not including the next dot; every other pattern
    character stands for one host character, compared without regard to
    case. *)
Inductive wildcard_match : list ascii -> list ascii -> Prop :=
| wm_end : wildcard_match [] []
| wm_char c d pattern host :
    c <> "*"%char ->
    toupper c = toupper d ->
    wildcard_match pattern host ->
    wildcard_match (c :: pattern) (d :: host)
| wm_star s pattern host :
    Forall (fun d => d <> "."%char) s ->
    at_label_end host ->
    wildcard_match pattern host ->
    wildcard_match ("*"%char :: pattern) (s ++ host).

(** The same with the two provisos of the code.  A pattern character that
    equals the host character stands for it, a [*] facing a [*] included;
    and any other [*] has to be met while the host is not yet used up: then
    it stands for the characters up to the next dot, as above. *)
Inductive host_bound_match : list ascii -> list ascii -> Prop :=
| hb_end : host_bound_match [] []
| hb_char c d pattern host :
    toupper c = toupper d ->
    host_bound_match pattern host ->
    host_bound_match (c :: pattern) (d :: host)
| hb_star d rest s pattern host :
    d <> "*"%char ->
    d :: rest = s ++ host ->
    Forall (fun d => d <> "."%char) s ->
    at_label_end host ->
    host_bound_match pattern host ->
    host_bound_match ("*"%char :: pattern) (d :: rest).

(** A device of the proofs, not part of the specification: the scan of
    [matchName] on lists instead of indices ([matchName_total] relates the
    two).  First what is left of the host once a [*] has run up to the next
    dot ... *)
Fixpoint drop_component (host : list ascii) : list ascii :=
  match host with
  | [] => []
  | d :: host' => if Ascii.eqb d "." then host else drop_component host'
  end.

(** ... and the scan itself. *)
Fixpoint scan_match (pattern host : list ascii) : bool :=
  match pattern, host with
  | [], [] => true
  | c :: pattern', d :: host' =>
      if Ascii.eqb (toupper c) (toupper d) then scan_match pattern' host'
      else if Ascii.eqb c "*" then scan_match pattern' (drop_component host)
      else false
  | _, _ => false
  end.

(** The characters of a C string: no NUL among them. *)
Definition c_string (s : list ascii) : Prop := Forall (fun c => c <> NUL) s.

Definition star_free (s : list ascii) : Prop := Forall (fun c => c <> "*"%char) s.

(** [needle] occurs in [hay]. *)
Fixpoint occurs_in (needle hay : string) : bool :=
  String.prefix needle hay ||
  match hay with
  | EmptyString => false
  | String _ hay' => occurs_in needle hay'
  end.

(** ** A small OpenSSL, to run the code on concrete inputs

    A certificate is written [C] and one byte, a private key [K] and one
    byte; a key belongs to the certificate with the same byte.  A file is
    named by its contents.  The library keeps what it is given and, like
    OpenSSL before 1.1.1, cannot copy a null protocol list. *)

Definition small_read (tag : ascii) (bio : BIO) : option nat * BIO :=
  match bio with
  | t :: x :: rest => if Ascii.eqb t tag then (Some (nat_of_ascii x), rest) else (None, [])
  | _ => (None, [])
  end.

Definition small_CERT : Type := option nat * list nat * option nat.

Fixpoint small_chain (fuel : nat) (bio : BIO) : list nat :=
  match fuel with
  | O => []
  | S f =>
      match small_read "C" bio with
      | (Some x, rest) => x :: small_chain f rest
      | (None, _) => []
      end
  end.

Definition small_use_chain_file (c : small_CERT) (path : string) : Z * small_CERT :=
  match small_chain (String.length path) (list_ascii_of_string path) with
  | x :: chain => (1, (Some x, chain, snd c))
  | [] => (0, c)
  end.

Definition small_use_key_file (c : small_CERT) (path : string) : Z * small_CERT :=
  match small_read "K" (list_ascii_of_string path) with
  | (Some k, _) => (1, (fst c, Some k))
  | (None, _) => (0, c)
  end.

Definition small_check (c : small_CERT) : Z :=
  match c with
  | (Some x, _, Some k) => if (x =? k)%nat then 1 else 0
  | _ => 0
  end.

Definition SmallSSL : OpenSSL := {|
  X509 := nat;
  EVP_PKEY := nat;
  CERT := small_CERT;
  X509_STORE := list string;
  X509_NAMES := string;
  SSL_CTX_new := Some ((None, [], None), []);
  SSL_CTX_up_ref_ok := true;
  BIO_new_ok := true;
  PEM_read_bio_X509 := small_read "C";
  PEM_read_bio_PrivateKey := small_read "K";
  SSL_CTX_use_certificate := fun c x => (1, (Some x, snd (fst c), snd c));
  SSL_CTX_add1_chain_cert := fun c x => (1, (fst (fst c), snd (fst c) ++ [x], snd c));
  SSL_CTX_use_PrivateKey := fun c k => (1, (fst c, Some k));
  SSL_CTX_use_certificate_chain_file := small_use_chain_file;
  SSL_CTX_use_PrivateKey_file := small_use_key_file;
  SSL_CTX_check_private_key := small_check;
  SSL_CTX_load_verify_locations :=
    fun s path => if string_empty path then (0, s) else (1, s ++ [path]);
  SSL_load_client_CA_file :=
    fun path => match path with
                | Some p => if string_empty p then None else Some p
                | None => None
                end;
  alpn_memdup_ok := fun protos => match protos with Some _ => true | None => false end;
  ERR_raised := fun _ => [1%positive];
  ERR_reason_error_string := fun _ => None
|}.

Definition small_ctx : @SSL_CTX SmallSSL :=
  @mkSSL_CTX SmallSSL (None, [], None) [] None None [] [].

(** A world with a context as the version constructor leaves it, an empty
    error queue and an empty heap. *)
Definition small_world : @World SmallSSL :=
  @mkWorld SmallSSL
    (@mkSSLContext SmallSSL small_ctx NO_VERIFY DO_NOT_REQUEST IGNORE_VERIFY_RESULT
       (Some false) ""%string (Some InlineRunner) [] [] [])
    [] 0 [] (mkHeap ∅ 0).

(** ** Vocabulary of the statements *)

Section Vocabulary.
Context `{OpenSSL}.

(** The call throws a C++ exception. *)
Definition throws {A} (m : M A) (w : World) : Prop :=
  exists e w', m w = (Throws e, w').

(** Application protocol negotiation is off: no buffer and no weight is
    kept, no selection callback is registered with the library, and the
    library holds no protocol list. *)
Definition alpn_disabled (w : World) : Prop :=
  advertisedNextProtocols_ (self w) = [] /\
  advertisedNextProtocolWeights_ (self w) = [] /\
  alpn_select_cb (ctx_ (self w)) = None /\
  alpn_protos (ctx_ (self w)) = [].

(** The groups [setRandomizedAdvertisedNextProtocols] keeps: those with at
    least one protocol name. *)
Definition kept (items : list NextProtocolsItem) : list NextProtocolsItem :=
  filter (fun item => protocols item <> []) items.

Definition total_weight_of (items : list NextProtocolsItem) : Z :=
  foldr (fun item sum => weight item + sum) 0 (kept items).

(** Some protocol name of some group has 256 characters or more. *)
Definition has_long_name (items : list NextProtocolsItem) : Prop :=
  exists item proto,
    In item items /\ In proto (protocols item) /\ (256 <= String.length proto)%nat.

(** How many certificates can be read from [bio] one after the other, up
    to [fuel] of them. *)
Fixpoint certificates_ahead (fuel : nat) (bio : BIO) : nat :=
  match fuel with
  | O => O
  | S f =>
      match PEM_read_bio_X509 bio with
      | (Some _, bio') => S (certificates_ahead f bio')
      | (None, _) => O
      end
  end.

(** [data] is [n] certificates and then no further one. *)
Definition holds_certificates (data : list ascii) (n : nat) : Prop :=
  certificates_ahead (S n) data = n.

(** The certificates that can be read from [bio] one after the other, up
    to [fuel] of them. *)
Fixpoint certificates (fuel : nat) (bio : BIO) : list X509 :=
  match fuel with
  | O => []
  | S f =>
      match PEM_read_bio_X509 bio with
      | (Some x, bio') => x :: certificates f bio'
      | (None, _) => []
      end
  end.

(** What the library holds once it was offered the certificates of [chain]
    for the chain, one after the other, and took every one; nothing when it
    refused one of them. *)
Fixpoint chain_taken (c : CERT) (chain : list X509) : option CERT :=
  match chain with
  | [] => Some c
  | x :: chain' =>
      if fst (SSL_CTX_add1_chain_cert c x) =? 0 then None
      else chain_taken (snd (SSL_CTX_add1_chain_cert c x)) chain'
  end.

(** The same for a leaf certificate followed by its chain. *)
Definition library_takes (c : CERT) (certs : list X509) : option CERT :=
  match certs with
  | [] => None
  | leaf :: chain =>
      if fst (SSL_CTX_use_certificate c leaf) =? 0 then None
      else chain_taken (snd (SSL_CTX_use_certificate c leaf)) chain
  end.

End Vocabulary.

Section AlpnVocabulary.
Context `{OpenSSL}.

(** The heap cells left when the arrays at [ps] have been deleted, first
    to last. *)
Definition freed (ps : list nat) (m : gmap nat (list ascii)) : gmap nat (list ascii) :=
  fold_left (fun m p => delete p m) ps m.

(** The arrays the context owns. *)
Definition owned (w : World) : list nat :=
  map adv_protocols (advertisedNextProtocols_ (self w)).

(** The world [deleteNextProtocolsStrings] leads to ... *)
Definition strings_deleted (w : World) : World :=
  with_self (set_advertised [] [])
    (with_heap (fun h => mkHeap (freed (owned w) (cells h)) (brk h)) w).

(** ... and the one [unsetNextProtocols] leads to. *)
Definition protocols_unset (w : World) : World :=
  with_ERR_queue (fun _ => [])
    (with_self (with_ctx_ (fun n => set_alpn_protos [] (set_alpn_select_cb None n)))
       (strings_deleted w)).

End AlpnVocabulary.


(** [n] certificates, one after the other, in the syntax of [SmallSSL]. *)
Definition pem_certificates (n : nat) : list ascii :=
  concat (replicate n ["C"%char; "a"%char]).

Section Calls.
Context `{OpenSSL}.

(** The call leaves [sslAcceptRunner_] as it was, whatever its outcome. *)
Definition frames_runner {A} (m : M A) : Prop :=
  forall w, sslAcceptRunner_ (self (snd (m w))) = sslAcceptRunner_ (self w).

(** The member functions modelled above that change state, as a caller can
    invoke them on a constructed context. *)
Inductive member_call : Type :=
| call_setVerificationOption_peer (verifyPeer : SSLVerifyPeerEnum)
| call_setVerificationOption_client (verifyClient : VerifyClientCertificate)
| call_setVerificationOption_server (verifyServer : VerifyServerCertificate)
| call_authenticate (checkPeerCert checkPeerName : bool) (peerName : string)
| call_loadCertificate (path format : option string)
| call_loadCertificateFromBufferPEM (data : option (list ascii))
| call_loadPrivateKey (path format : option string)
| call_loadPrivateKeyFromBufferPEM (data : option (list ascii))
| call_loadCertKeyPairFromBufferPEM (certData keyData : option (list ascii))
| call_loadCertKeyPairFromFiles (certPath keyPath certFormat keyFormat : option string)
| call_loadTrustedCertificates (path : option string)
| call_loadTrustedCertificates_store (store : X509_STORE)
| call_loadClientCAList (path : option string)
| call_setAdvertisedNextProtocols (protos : list string)
| call_setRandomizedAdvertisedNextProtocols (items : list NextProtocolsItem)
| call_unsetNextProtocols
| call_deleteNextProtocolsStrings
| call_sslAcceptRunner (runner : option SSLAcceptRunner).

(** The world a call leaves behind: an exception has been caught by the
    caller, and what the call did before throwing stays done. *)
Definition perform (c : member_call) (w : World) : World :=
  match c with
  | call_setVerificationOption_peer v => snd (setVerificationOption_peer v w)
  | call_setVerificationOption_client v => snd (setVerificationOption_client v w)
  | call_setVerificationOption_server v => snd (setVerificationOption_server v w)
  | call_authenticate c n p => snd (authenticate c n p w)
  | call_loadCertificate p f => snd (loadCertificate p f w)
  | call_loadCertificateFromBufferPEM d => snd (loadCertificateFromBufferPEM d w)
  | call_loadPrivateKey p f => snd (loadPrivateKey p f w)
  | call_loadPrivateKeyFromBufferPEM d => snd (loadPrivateKeyFromBufferPEM d w)
  | call_loadCertKeyPairFromBufferPEM c k => snd (loadCertKeyPairFromBufferPEM c k w)
  | call_loadCertKeyPairFromFiles c k cf kf => snd (loadCertKeyPairFromFiles c k cf kf w)
  | call_loadTrustedCertificates p => snd (loadTrustedCertificates p w)
  | call_loadTrustedCertificates_store s => snd (loadTrustedCertificates_store s w)
  | call_loadClientCAList p => snd (loadClientCAList p w)
  | call_setAdvertisedNextProtocols l => snd (setAdvertisedNextProtocols l w)
  | call_setRandomizedAdvertisedNextProtocols l =>
      snd (setRandomizedAdvertisedNextProtocols l w)
  | call_unsetNextProtocols => snd (unsetNextProtocols w)
  | call_deleteNextProtocolsStrings => snd (deleteNextProtocolsStrings w)
  | call_sslAcceptRunner r => snd (set_sslAcceptRunner r w)
  end.

Definition perform_all (calls : list member_call) (w : World) : World :=
  fold_left (fun w c => perform c w) calls w.

End Calls.

Section PairVocabulary.
Context `{OpenSSL}.

(** The call never ends the process. *)
Definition never_aborts {A} (m : M A) : Prop :=
  forall w c w', m w <> (CheckFailed c, w').

(** What it means for [pair], made of [loadCert] and [loadKey], to check
    the match in the world [w]: it returns with a pair the library finds
    matching, or else throws; once both loads have returned, the library's
    verdict alone decides between returning and the mismatch error; and the
    mismatch error is thrown in that case only. *)
Definition checks_match (loadCert loadKey pair : M unit) (w : World) : Prop :=
  (exists w',
     (pair w = (Returns tt, w') /\
      SSL_CTX_check_private_key (cert (ctx_ (self w'))) = 1) \/
     (exists e, pair w = (Throws e, w'))) /\
  (forall w1 w2,
     loadCert w = (Returns tt, w1) -> loadKey w1 = (Returns tt, w2) ->
     exists w3,
       self w3 = self w2 /\
       pair w = (if SSL_CTX_check_private_key (cert (ctx_ (self w2))) =? 1
                 then Returns tt else Throws mismatch, w3)) /\
  (forall w', pair w = (Throws mismatch, w') ->
     exists w1 w2,
       loadCert w = (Returns tt, w1) /\ loadKey w1 = (Returns tt, w2) /\
       SSL_CTX_check_private_key (cert (ctx_ (self w2))) <> 1).

End PairVocabulary.

(** ** Further code of the class: the callbacks OpenSSL calls back *)

(** [size_t] is 64 bits wide. *)
Definition to_size_t (z : Z) : Z := z mod 2 ^ 64.

(** [class PasswordCollector]: [getPassword(password, size)] as what it
    leaves in [password], and [describe()]. *)
Record PasswordCollector : Type := mkPasswordCollector {
  getPassword : Z -> list ascii;
  describe : string
}.

(** [static int passwordCallback(char* password, int size, int, void* data)].
    [data] is the context, here the one member the function reads,
    [collector_] ([None] for a null pointer, at either level).  The result
    is the returned [int] and the buffer after the [memcpy], which writes
    [length] bytes from the start of [password]. *)
Definition passwordCallback (password : list ascii) (size : Z)
    (data : option (option PasswordCollector)) : Z * list ascii :=
  match data with
  | None => (0, password)
  | Some None => (0, password)
  | Some (Some collector) =>
      let userPassword := getPassword collector size in
      let length := Z.min (Z.of_nat (length userPassword)) (to_size_t size) in
      (to_int length,
       take (Z.to_nat length) userPassword ++ drop (Z.to_nat length) password)
  end.

Definition SSL_TLSEXT_ERR_OK : Z := 0.
Definition SSL_TLSEXT_ERR_ALERT_FATAL : Z := 2.
Definition SSL_TLSEXT_ERR_NOACK : Z := 3.
Definition OPENSSL_NPN_NEGOTIATED : Z := 1.

Section Selection.
Context `{OpenSSL}.
Local Open Scope cxx_scope.

(** What the standard library and OpenSSL decide: the index drawn from a
    [std::discrete_distribution] built from the given weights, and
    [SSL_select_next_proto] on the server's and the client's list, as its
    status and the protocol it points [out] at. *)
Variable draw : list Z -> nat.
Variable SSL_select_next_proto : list ascii -> list ascii -> Z * list ascii.

(** [size_t pickNextProtocols()] *)
Definition pickNextProtocols : M nat :=
  items <- gets (fun w => advertisedNextProtocols_ (self w)) ;;
  CHECK (match items with [] => false | _ => true end)
        "!advertisedNextProtocols_.empty()" ;;;
  weights <- gets (fun w => nextProtocolDistribution_ (self w)) ;;
  ret (draw weights).

(** [static int alpnSelectCallback(SSL*, const unsigned char** out,
    unsigned char* outlen, const unsigned char* in, unsigned int inlen,
    void* data)].  [data] is the context ([false] for a null pointer), and
    [allowMismatch] its member [alpnAllowMismatch_].  The result is the
    returned code and what [out] points at ([None] for a null pointer);
    it is [None] as a whole when [advertisedNextProtocols_[i]] is read
    outside the vector, which C++ leaves undefined. *)
Definition alpnSelectCallback_body (data allowMismatch : bool) (inp : list ascii)
    : M (option (Z * option (list ascii))) :=
  CHECK data "context" ;;;
  items <- gets (fun w => advertisedNextProtocols_ (self w)) ;;
  match items with
  | [] => ret (Some (SSL_TLSEXT_ERR_OK, None))
  | _ :: _ =>
      i <- pickNextProtocols ;;
      match items !! i with
      | None => ret None
      | Some item =>
          server <- read_array (adv_protocols item) (adv_length item) ;;
          let (status, out) := SSL_select_next_proto server inp in
          if negb (status =? OPENSSL_NPN_NEGOTIATED) then
            if negb allowMismatch
            then ret (Some (SSL_TLSEXT_ERR_ALERT_FATAL, Some out))
            else ret (Some (SSL_TLSEXT_ERR_NOACK, Some out))
          else ret (Some (SSL_TLSEXT_ERR_OK, Some out))
      end
  end.

End Selection.

(** ** Vocabulary of the further statements *)

(** A protocol name that fits its length byte. *)
Definition short (proto : string) : Prop := (String.length proto < 256)%nat.

(** The number of dots, that is, of label separators. *)
Definition dots (s : list ascii) : nat := count_occ Ascii.ascii_dec s "."%char.


Section MoreVocabulary.
Context `{OpenSSL}.



(** The text [getErrors] gives for one code. *)
Definition reason_of (errorCode : positive) : string :=
  match ERR_reason_error_string errorCode with
  | Some reason => reason
  | None => ("SSL error # " ++ format_08lX (Zpos errorCode))%string
  end.

(** The bytes a group of names takes on the wire. *)
Definition wire_size (protos : list string) : Z :=
  fold_right (fun proto n => 1 + Z.of_nat (String.length proto) + n) 0 protos.

(** Every kept group fits a buffer whose length is an [unsigned]. *)
Definition fits_unsigned (items : list NextProtocolsItem) : Prop :=
  forall item, In item (kept items) -> wire_size (protocols item) < 2 ^ 32.

(** The advertised item [a] is the group [item] on the heap: a live array
    holding the wire format of its names, of the recorded length. *)
Definition advertises (w : World) (a : AdvertisedNextProtocolsItem)
    (item : NextProtocolsItem) : Prop :=
  cells (heap w) !! adv_protocols a = Some (wire_format (protocols item)) /\
  adv_length a = Z.of_nat (length (wire_format (protocols item))).

(** What the members of protocol negotiation keep between calls: groups
    and weights go index by index; when a group is advertised the
    distribution is the one built from the weights and the weights do not
    sum to zero; every group has an array of its own, live and not null. *)
Definition alpn_consistent (w : World) : Prop :=
  length (advertisedNextProtocols_ (self w))
    = length (advertisedNextProtocolWeights_ (self w)) /\
  (advertisedNextProtocols_ (self w) <> [] ->
     nextProtocolDistribution_ (self w) = advertisedNextProtocolWeights_ (self w) /\
     to_int (foldr Z.add 0 (advertisedNextProtocolWeights_ (self w))) <> 0) /\
  NoDup (owned w) /\
  (forall p, In p (owned w) -> p <> O /\ is_Some (cells (heap w) !! p)).






End MoreVocabulary.

(** * Properties *)

Ltac run :=
  cbv beta delta [bind ret throw CHECK gets modify
                  ERR_put_errors ERR_clear_error report configure] iota; simpl.

(** ** Verification policy *)

Section Verification.
Context `{OpenSSL}.

Lemma getVerificationMode_peer_returns (verifyPeer : SSLVerifyPeerEnum) :
  verifyPeer <> USE_CTX ->
  exists peer, getVerificationMode_peer verifyPeer = Returns peer.
Proof.
  destruct verifyPeer; intros Hne; try congruence; eexists; reflexivity.
Qed.

(** C1: for every stored combination of the three options whose legacy part
    is not USE_CTX, [getVerificationMode()] returns the bitwise OR of the
    three modes resolved one by one, without touching the state;
    [needsPeerVerification()] returns true exactly when that mode is not
    zero; the modes are those of the table (ALWAYS and
    VERIFY_REQ_CLIENT_CERT give PEER|FAIL_IF_NO_PEER_CERT, IF_PRESENTED and
    VERIFY give PEER, NO_VERIFY, DO_NOT_REQUEST and IGNORE_VERIFY_RESULT
    give no bit). *)
Theorem getVerificationMode_or (w : World) :
  verifyPeer_ (self w) <> USE_CTX ->
  exists peer mode needs,
    getVerificationMode_peer (verifyPeer_ (self w)) = Returns peer /\
    mode = Z.lor (Z.lor (getVerificationMode_client (verifyClient_ (self w)))
                        (getVerificationMode_server (verifyServer_ (self w))))
                 peer /\
    getVerificationMode w = (Returns mode, w) /\
    needsPeerVerification w = (Returns needs, w) /\
    (needs = true <-> mode <> 0) /\
    getVerificationMode_client ALWAYS
      = Z.lor SSL_VERIFY_PEER SSL_VERIFY_FAIL_IF_NO_PEER_CERT /\
    getVerificationMode_client IF_PRESENTED = SSL_VERIFY_PEER /\
    getVerificationMode_client DO_NOT_REQUEST = 0 /\
    getVerificationMode_server SERVER_IF_PRESENTED = SSL_VERIFY_PEER /\
    getVerificationMode_server IGNORE_VERIFY_RESULT = 0 /\
    getVerificationMode_peer VERIFY = Returns SSL_VERIFY_PEER /\
    getVerificationMode_peer VERIFY_REQ_CLIENT_CERT
      = Returns (Z.lor SSL_VERIFY_PEER SSL_VERIFY_FAIL_IF_NO_PEER_CERT) /\
    getVerificationMode_peer NO_VERIFY = Returns 0.
Proof.
  intros Hne.
  destruct (getVerificationMode_peer_returns _ Hne) as [peer Hpeer].
  exists peer.
  eexists. exists (negb (Z.lor (Z.lor (getVerificationMode_client (verifyClient_ (self w)))
                        (getVerificationMode_server (verifyServer_ (self w))))
                 peer =? SSL_VERIFY_NONE)).
  split; [exact Hpeer|]. split; [reflexivity|].
  unfold needsPeerVerification, getVerificationMode. run. rewrite Hpeer.
  split; [reflexivity|]. split; [reflexivity|].
  split.
  - unfold SSL_VERIFY_NONE. rewrite negb_true_iff, Z.eqb_neq. tauto.
  - repeat split.
Qed.

(** The stored legacy option is never USE_CTX once it has been set: the
    setter stores what it is given only past its [CHECK]. *)
Lemma setVerificationOption_peer_stores (verifyPeer : SSLVerifyPeerEnum) (w w' : World) :
  setVerificationOption_peer verifyPeer w = (Returns tt, w') ->
  verifyPeer_ (self w') = verifyPeer /\ verifyPeer <> USE_CTX.
Proof.
  unfold setVerificationOption_peer. run.
  destruct verifyPeer; simpl; intros Heq; inversion Heq; subst; simpl;
    split; congruence.
Qed.

(** C7, as the code has it: given USE_CTX, both functions fail their
    [CHECK], which ends the process: they return no mode, store nothing and
    throw nothing, [std::invalid_argument] included; given any other value
    they return. *)
Theorem USE_CTX_fails_CHECK (w : World) :
  getVerificationMode_peer USE_CTX
    = CheckFailed "verifyPeer != SSLVerifyPeerEnum::USE_CTX" /\
  setVerificationOption_peer USE_CTX w
    = (CheckFailed "verifyPeer != SSLVerifyPeerEnum::USE_CTX", w) /\
  (forall e, getVerificationMode_peer USE_CTX <> Throws e) /\
  (forall e, fst (setVerificationOption_peer USE_CTX w) <> Throws e) /\
  (forall verifyPeer, verifyPeer <> USE_CTX ->
     (exists mode, getVerificationMode_peer verifyPeer = Returns mode) /\
     setVerificationOption_peer verifyPeer w
       = (Returns tt, with_self (set_verifyPeer_ verifyPeer) w)).
Proof.
  repeat split; try discriminate.
  - apply getVerificationMode_peer_returns. assumption.
  - destruct verifyPeer; try congruence; reflexivity.
Qed.

End Verification.

(** C7, as the claim has it, fails: an invalid-argument failure is the
    exception [std::invalid_argument], and USE_CTX raises none. *)
Lemma USE_CTX_is_no_invalid_argument :
  ~ (exists what, getVerificationMode_peer USE_CTX = Throws (invalid_argument what)).
Proof. intros [what Hthrow]. discriminate Hthrow. Qed.

(** Where C1 applies: a context with VERIFY, ALWAYS and IGNORE_VERIFY_RESULT
    stored has mode 3 and needs peer verification. *)
Lemma getVerificationMode_or_witness :
  exists peer mode needs,
    getVerificationMode_peer VERIFY = Returns peer /\
    mode = Z.lor (Z.lor (getVerificationMode_client ALWAYS)
                        (getVerificationMode_server IGNORE_VERIFY_RESULT)) peer /\
    mode = 3 /\ needs = true.
Proof.
  destruct (@getVerificationMode_or SmallSSL
              (with_self (fun c => set_verifyClient_ ALWAYS (set_verifyPeer_ VERIFY c))
                 small_world))
    as (peer & mode & needs & Hpeer & Hmode & _ & Hneeds & _).
  - simpl. discriminate.
  - exists peer, mode, needs. simpl in *.
    inversion Hpeer; subst peer. subst mode.
    split; [reflexivity|]. split; [reflexivity|]. split; [reflexivity|].
    vm_compute in Hneeds. inversion Hneeds. reflexivity.
Defined.

(** ** Running monadic code *)

Section Running.
Context `{OpenSSL}.

Lemma bind_returns {A B} (m : M A) (k : A -> M B) (w w' : World) (a : A) :
  m w = (Returns a, w') -> bind m k w = k a w'.
Proof. intros Hm. unfold bind. rewrite Hm. reflexivity. Qed.

Lemma report_run (name : string) (rc : Z) (w : World) :
  exists q, report name rc w = (Returns tt, with_ERR_queue (fun _ => q) w).
Proof.
  unfold report.
  destruct (rc <=? 0); [exists (ERR_queue w ++ ERR_raised name) | exists (ERR_queue w)];
    run; destruct w; reflexivity.
Qed.

Lemma on_CERT_run (name : string) (f : CERT -> Z * CERT) (w : World) :
  exists q,
    on_CERT name f w =
      (Returns (fst (f (cert (ctx_ (self w))))),
       with_ERR_queue (fun _ => q)
         (with_self (with_ctx_ (set_cert (snd (f (cert (ctx_ (self w))))))) w)).
Proof.
  unfold on_CERT.
  set (w1 := with_self (with_ctx_ (set_cert (snd (f (cert (ctx_ (self w))))))) w).
  destruct (report_run name (fst (f (cert (ctx_ (self w))))) w1) as [q Hq].
  exists q. unfold bind, gets, modify, ret. fold w1. rewrite Hq. reflexivity.
Qed.

Lemma on_X509_STORE_run (name : string) (f : X509_STORE -> Z * X509_STORE) (w : World) :
  exists q,
    on_X509_STORE name f w =
      (Returns (fst (f (cert_store (ctx_ (self w))))),
       with_ERR_queue (fun _ => q)
         (with_self (with_ctx_ (set_cert_store (snd (f (cert_store (ctx_ (self w))))))) w)).
Proof.
  unfold on_X509_STORE.
  set (w1 := with_self (with_ctx_ (set_cert_store (snd (f (cert_store (ctx_ (self w))))))) w).
  destruct (report_run name (fst (f (cert_store (ctx_ (self w))))) w1) as [q Hq].
  exists q. unfold bind, gets, modify, ret. fold w1. rewrite Hq. reflexivity.
Qed.

Lemma getErrors_run (w : World) :
  exists errors, getErrors w = (Returns errors, with_ERR_queue (fun _ => []) w).
Proof. unfold getErrors, getErrors_errno. run. eauto. Qed.

End Running.

(** ** Loading from files: the hard failures and the one soft failure *)

Section Loading.
Context `{OpenSSL}.

Lemma loadCertificate_throws (path format : option string) (w : World) :
  match path, format with
  | Some p, Some f =>
      f <> "PEM"%string \/
      fst (SSL_CTX_use_certificate_chain_file (cert (ctx_ (self w))) p) <> 1
  | _, _ => True
  end ->
  throws (loadCertificate path format) w.
Proof.
  unfold throws, loadCertificate.
  destruct path as [p|], format as [f|]; try (intros _; run; eauto; fail).
  intros Hfail. destruct (String.eqb f "PEM") eqn:Hf.
  - apply String.eqb_eq in Hf. destruct Hfail as [Hne | Hrc]; [congruence|].
    destruct (on_CERT_run "SSL_CTX_use_certificate_chain_file"
                (fun c => SSL_CTX_use_certificate_chain_file c p) w) as [q Hrun].
    rewrite (bind_returns _ _ _ _ _ Hrun).
    apply Z.eqb_neq in Hrc. rewrite Hrc. unfold getErrors_errno. run. eauto.
  - run. eauto.
Qed.

Lemma loadPrivateKey_throws (path format : option string) (w : World) :
  match path, format with
  | Some p, Some f =>
      f <> "PEM"%string \/
      fst (SSL_CTX_use_PrivateKey_file (cert (ctx_ (self w))) p) = 0
  | _, _ => True
  end ->
  throws (loadPrivateKey path format) w.
Proof.
  unfold throws, loadPrivateKey.
  destruct path as [p|], format as [f|]; try (intros _; run; eauto; fail).
  intros Hfail. destruct (String.eqb f "PEM") eqn:Hf.
  - apply String.eqb_eq in Hf. destruct Hfail as [Hne | Hrc]; [congruence|].
    destruct (on_CERT_run "SSL_CTX_use_PrivateKey_file"
                (fun c => SSL_CTX_use_PrivateKey_file c p) w) as [q Hrun].
    rewrite (bind_returns _ _ _ _ _ Hrun).
    rewrite Hrc. unfold getErrors, getErrors_errno. run. eauto.
  - run. eauto.
Qed.

Lemma loadTrustedCertificates_throws (path : option string) (w : World) :
  match path with
  | Some p => fst (SSL_CTX_load_verify_locations (cert_store (ctx_ (self w))) p) = 0
  | None => True
  end ->
  throws (loadTrustedCertificates path) w.
Proof.
  unfold throws, loadTrustedCertificates.
  destruct path as [p|]; [|intros _; run; eauto].
  intros Hrc.
  destruct (on_X509_STORE_run "SSL_CTX_load_verify_locations"
              (fun s => SSL_CTX_load_verify_locations s p) w) as [q Hrun].
  rewrite (bind_returns _ _ _ _ _ Hrun).
  rewrite Hrc. unfold getErrors, getErrors_errno. run. eauto.
Qed.

(** C8: [loadClientCAList] returns for every path, null included.  When the
    library cannot load the file, one line is logged and the context (and
    the heap) stay as they were; when it can, the list is installed.  The
    other three loaders throw whenever their argument is null, the format
    is not PEM, or the library reports failure. *)
Theorem loadClientCAList_never_throws (path : option string) (w : World) :
  exists w',
    loadClientCAList path w = (Returns tt, w') /\
    (SSL_load_client_CA_file path = None ->
       self w' = self w /\ heap w' = heap w /\
       exists line, LOG_ERROR w' = LOG_ERROR w ++ [line]) /\
    (forall clientCAs, SSL_load_client_CA_file path = Some clientCAs ->
       client_CA_list (ctx_ (self w')) = Some clientCAs) /\
    (forall format, throws (loadCertificate None format) w) /\
    (forall p, throws (loadCertificate (Some p) None) w) /\
    (forall p f, f <> "PEM"%string -> throws (loadCertificate (Some p) (Some f)) w) /\
    (forall p, fst (SSL_CTX_use_certificate_chain_file (cert (ctx_ (self w))) p) <> 1 ->
       throws (loadCertificate (Some p) (Some "PEM"%string)) w) /\
    (forall format, throws (loadPrivateKey None format) w) /\
    (forall p, throws (loadPrivateKey (Some p) None) w) /\
    (forall p f, f <> "PEM"%string -> throws (loadPrivateKey (Some p) (Some f)) w) /\
    (forall p, fst (SSL_CTX_use_PrivateKey_file (cert (ctx_ (self w))) p) = 0 ->
       throws (loadPrivateKey (Some p) (Some "PEM"%string)) w) /\
    throws (loadTrustedCertificates None) w /\
    (forall p, fst (SSL_CTX_load_verify_locations (cert_store (ctx_ (self w))) p) = 0 ->
       throws (loadTrustedCertificates (Some p)) w).
Proof.
  assert (Hrun : exists w',
    loadClientCAList path w = (Returns tt, w') /\
    (SSL_load_client_CA_file path = None ->
       self w' = self w /\ heap w' = heap w /\
       exists line, LOG_ERROR w' = LOG_ERROR w ++ [line]) /\
    (forall clientCAs, SSL_load_client_CA_file path = Some clientCAs ->
       client_CA_list (ctx_ (self w')) = Some clientCAs)).
  { unfold loadClientCAList, getErrors, getErrors_errno.
    destruct (SSL_load_client_CA_file path) as [clientCAs|]; run.
    - eexists. split; [reflexivity|]. split; [discriminate|].
      intros ? Heq. simpl. congruence.
    - eexists. split; [reflexivity|]. split; [|discriminate].
      intros _. simpl. eauto. }
  destruct Hrun as (w' & Hret & Hfail & Hok).
  exists w'. split; [exact Hret|]. split; [exact Hfail|]. split; [exact Hok|].
  split; [intros f; apply (loadCertificate_throws None f); exact I|].
  split; [intros p; apply (loadCertificate_throws (Some p) None); exact I|].
  split; [intros p f Hf; apply (loadCertificate_throws (Some p) (Some f)); left; exact Hf|].
  split; [intros p Hrc; apply (loadCertificate_throws (Some p) (Some "PEM"%string));
          right; exact Hrc|].
  split; [intros f; apply (loadPrivateKey_throws None f); exact I|].
  split; [intros p; apply (loadPrivateKey_throws (Some p) None); exact I|].
  split; [intros p f Hf; apply (loadPrivateKey_throws (Some p) (Some f)); left; exact Hf|].
  split; [intros p Hrc; apply (loadPrivateKey_throws (Some p) (Some "PEM"%string));
          right; exact Hrc|].
  split; [apply (loadTrustedCertificates_throws None); exact I|].
  intros p Hrc. apply (loadTrustedCertificates_throws (Some p)). exact Hrc.
Qed.

End Loading.

(** ** Certificates and keys from memory *)

Lemma to_int_small (z : Z) : - 2 ^ 31 <= z < 2 ^ 31 -> to_int z = z.
Proof. intros Hz. unfold to_int. rewrite Z.mod_small; lia. Qed.

Lemma to_unsigned_small (z : Z) : 0 <= z < 2 ^ 32 -> to_unsigned z = z.
Proof. intros Hz. unfold to_unsigned. apply Z.mod_small. lia. Qed.

Section Credentials.
Context `{OpenSSL}.

Lemma read_X509_some (bio bio' : BIO) (x : X509) (w : World) :
  PEM_read_bio_X509 bio = (Some x, bio') ->
  read_X509 bio w = (Returns (Some x, bio'), w).
Proof. intros Hread. unfold read_X509. rewrite Hread. reflexivity. Qed.

Lemma read_X509_none (bio bio' : BIO) (w : World) :
  PEM_read_bio_X509 bio = (None, bio') ->
  read_X509 bio w =
    (Returns (None, bio'),
     with_ERR_queue (fun q => q ++ ERR_raised "PEM_read_bio_X509") w).
Proof. intros Hread. unfold read_X509. rewrite Hread. reflexivity. Qed.

Lemma certificates_ahead_prefix (n m : nat) (bio : BIO) :
  certificates_ahead n bio = n -> (m <= n)%nat -> certificates_ahead m bio = m.
Proof.
  revert m bio. induction n as [|n IH]; intros m bio Hn Hm.
  - assert (m = O) by lia. subst m. reflexivity.
  - destruct m as [|m]; [reflexivity|]. simpl in *.
    destruct (PEM_read_bio_X509 bio) as [[x|] bio']; [|discriminate].
    f_equal. apply IH; [congruence | lia].
Qed.

Lemma certificates_ahead_all (n : nat) (bio : BIO) :
  certificates_ahead (S n) bio = n -> certificates_ahead n bio = n.
Proof.
  revert bio. induction n as [|n IH]; intros bio Hn; [reflexivity|].
  cbn [certificates_ahead] in *.
  destruct (PEM_read_bio_X509 bio) as [[x|] bio']; [|discriminate].
  f_equal. apply IH. congruence.
Qed.

Lemma certificates_ahead_stable (n m : nat) (bio : BIO) :
  certificates_ahead (S n) bio = n -> (n <= m)%nat -> certificates_ahead m bio = n.
Proof.
  revert m bio. induction n as [|n IH]; intros m bio Hn Hm.
  - destruct m as [|m]; [reflexivity|]. cbn [certificates_ahead] in *.
    destruct (PEM_read_bio_X509 bio) as [[x|] bio']; [discriminate | reflexivity].
  - destruct m as [|m]; [lia|]. cbn [certificates_ahead] in Hn |- *.
    destruct (PEM_read_bio_X509 bio) as [[x|] bio']; [|discriminate].
    f_equal. apply IH; [|lia]. injection Hn as Hn. exact Hn.
Qed.

Lemma certificates_length (fuel : nat) (bio : BIO) :
  length (certificates fuel bio) = certificates_ahead fuel bio.
Proof.
  revert bio. induction fuel as [|fuel IH]; intros bio; [reflexivity|].
  cbn [certificates certificates_ahead].
  destruct (PEM_read_bio_X509 bio) as [[x|] bio']; [|reflexivity].
  cbn [length]. f_equal. apply IH.
Qed.

(** Writing back what is there changes nothing. *)
Lemma same_cert_and_queue (w : World) :
  with_ERR_queue (fun _ => ERR_queue w)
    (with_self (with_ctx_ (set_cert (cert (ctx_ (self w))))) w) = w.
Proof.
  destruct w as [s ? ? ? ?]. destruct s as [c ? ? ? ? ? ? ? ? ?]. destruct c.
  reflexivity.
Qed.

(** The loop of [loadCertificateFromBufferPEM], whatever the library
    answers.  When the library takes every certificate the loop gets to,
    it returns if the data ends before the rounds do, with the queue
    cleared, and reaches the [throw] behind it otherwise; in both cases the
    certificates stay with the library and nothing else has changed.  When
    the library refuses one, the error of that call is thrown. *)
Lemma load_chain_run (rounds : nat) (bio : BIO) (w : World) :
  match chain_taken (cert (ctx_ (self w))) (certificates rounds bio) with
  | Some c' =>
      if (length (certificates rounds bio) <? rounds)%nat
      then load_chain rounds bio w =
             (Returns tt,
              with_ERR_queue (fun _ => []) (with_self (with_ctx_ (set_cert c')) w))
      else exists q,
             load_chain rounds bio w =
               (Throws (runtime_error
                          "loadCertificateFromBufferPEM(): Too many certificates in chain"),
                with_ERR_queue (fun _ => q) (with_self (with_ctx_ (set_cert c')) w))
  | None =>
      exists errors w',
        load_chain rounds bio w =
          (Throws (runtime_error ("SSL_CTX_add0_chain_cert: " ++ errors)%string), w')
  end.
Proof.
  revert bio w. induction rounds as [|rounds IH]; intros bio w.
  - cbn [certificates chain_taken length Nat.ltb Nat.leb load_chain].
    exists (ERR_queue w). unfold throw. rewrite same_cert_and_queue. reflexivity.
  - cbn [load_chain certificates].
    destruct (PEM_read_bio_X509 bio) as [[x|] bio'] eqn:Hread.
    + rewrite (bind_returns _ _ _ _ _ (read_X509_some _ _ _ w Hread)).
      destruct (on_CERT_run "SSL_CTX_add1_chain_cert"
                  (fun c => SSL_CTX_add1_chain_cert c x) w) as [q Hrun].
      rewrite (bind_returns _ _ _ _ _ Hrun).
      cbn [chain_taken].
      destruct (fst (SSL_CTX_add1_chain_cert (cert (ctx_ (self w))) x) =? 0).
      * match goal with |- context [bind getErrors _ ?w1] =>
          destruct (getErrors_run w1) as [errors Herrors] end.
        rewrite (bind_returns _ _ _ _ _ Herrors). eexists. eexists. reflexivity.
      * match goal with |- context [load_chain rounds bio' ?w1] =>
          specialize (IH bio' w1) end.
        cbn [length]. change (S (length (certificates rounds bio')) <? S rounds)%nat
          with (length (certificates rounds bio') <? rounds)%nat.
        simpl in IH.
        destruct (chain_taken (snd (SSL_CTX_add1_chain_cert (cert (ctx_ (self w))) x))
                    (certificates rounds bio')) as [c'|]; [|exact IH].
        destruct (length (certificates rounds bio') <? rounds)%nat; exact IH.
    + rewrite (bind_returns _ _ _ _ _ (read_X509_none _ _ w Hread)).
      cbn [chain_taken length]. change (0 <? S rounds)%nat with true. cbv iota.
      rewrite <- (same_cert_and_queue w) at 1.
      reflexivity.
Qed.

(** Up to the loop: the buffer goes into the BIO whole, the first
    certificate is read and offered as the leaf. *)
Lemma loadCertificateFromBufferPEM_leaf
    (data : list ascii) (x : X509) (bio' : BIO) (w : World) :
  BIO_new_ok = true ->
  0 < Z.of_nat (length data) < 2 ^ 31 ->
  PEM_read_bio_X509 data = (Some x, bio') ->
  exists q,
    loadCertificateFromBufferPEM (Some data) w =
      (if fst (SSL_CTX_use_certificate (cert (ctx_ (self w))) x) =? 0
       then errors <- getErrors ;;
            throw (runtime_error ("SSL_CTX_use_certificate: " ++ errors)%string)
       else load_chain kMaxCertChain bio')%cxx
        (with_ERR_queue (fun _ => q)
           (with_self (with_ctx_ (set_cert
              (snd (SSL_CTX_use_certificate (cert (ctx_ (self w))) x)))) w)).
Proof.
  intros Hbio Hsize Hread.
  assert (Hwrite : BIO_write [] data (to_int (Z.of_nat (length data)))
                   = (Z.of_nat (length data), data)).
  { unfold BIO_write. rewrite to_int_small by lia.
    destruct (Z.ltb_spec 0 (Z.of_nat (length data))) as [_|]; [|lia].
    rewrite Nat2Z.id, firstn_all. reflexivity. }
  assert (Hfull : (Z.of_nat (length data) <=? 0)
                  || negb (to_unsigned (Z.of_nat (length data)) =? Z.of_nat (length data))
                  = false).
  { rewrite to_unsigned_small by lia. rewrite Z.eqb_refl.
    destruct (Z.leb_spec (Z.of_nat (length data)) 0) as [|_]; [lia|]. reflexivity. }
  destruct (on_CERT_run "SSL_CTX_use_certificate"
              (fun c => SSL_CTX_use_certificate c x) w) as [q Hrun].
  exists q.
  unfold loadCertificateFromBufferPEM. rewrite Hbio, Hwrite, Hfull. cbn [negb].
  rewrite (bind_returns _ _ _ _ _ (read_X509_some _ _ _ w Hread)).
  rewrite (bind_returns _ _ _ _ _ Hrun).
  destruct (fst (SSL_CTX_use_certificate (cert (ctx_ (self w))) x) =? 0); reflexivity.
Qed.

(** C3: a buffer of N certificates, N at least 1, that went into the BIO
    (the BIO was made, the buffer is shorter than 2^31 bytes).  If the
    library takes the certificates the call gets to, the first as the leaf
    and the others into the chain, then for N up to 64 the call returns,
    with the certificates installed, the error queue empty and nothing else
    changed: the read that finds no further block is the end of the chain;
    and for N of 65 or more it throws a runtime error that contains "Too
    many certificates in chain", the leaf and the 64 certificates after it
    still installed.  If the library refuses one of them, the call throws
    the error of that library call instead.  The call gets to N
    certificates, and to 65 at most. *)
Theorem loadCertificateFromBufferPEM_chain_limit (data : list ascii) (N : nat) (w : World) :
  BIO_new_ok = true ->
  0 < Z.of_nat (length data) < 2 ^ 31 ->
  holds_certificates data N ->
  (forall c',
     library_takes (cert (ctx_ (self w))) (certificates (S kMaxCertChain) data) = Some c' ->
     ((1 <= N <= 64)%nat ->
        loadCertificateFromBufferPEM (Some data) w =
          (Returns tt,
           with_ERR_queue (fun _ => []) (with_self (with_ctx_ (set_cert c')) w))) /\
     ((65 <= N)%nat ->
        exists what q,
          loadCertificateFromBufferPEM (Some data) w =
            (Throws (runtime_error what),
             with_ERR_queue (fun _ => q) (with_self (with_ctx_ (set_cert c')) w)) /\
          occurs_in "Too many certificates in chain" what = true)) /\
  (library_takes (cert (ctx_ (self w))) (certificates (S kMaxCertChain) data) = None ->
   (1 <= N)%nat ->
   exists name errors w',
     (name = "SSL_CTX_use_certificate"%string \/ name = "SSL_CTX_add0_chain_cert"%string) /\
     loadCertificateFromBufferPEM (Some data) w =
       (Throws (runtime_error (name ++ ": " ++ errors)%string), w')) /\
  length (certificates (S kMaxCertChain) data) = Nat.min N (S kMaxCertChain).
Proof.
  intros Hbio Hsize Hholds.
  destruct N as [|n].
  { (* no certificate at all: the cases are empty *)
    unfold holds_certificates in Hholds. cbn [certificates_ahead] in Hholds.
    cbn [certificates library_takes].
    destruct (PEM_read_bio_X509 data) as [[x|] bio']; [discriminate|].
    split; [intros c' Htakes; discriminate Htakes|].
    split; [intros _ Hlo; lia | reflexivity]. }
  unfold holds_certificates in Hholds.
  change (certificates_ahead (S (S n)) data)
    with (match PEM_read_bio_X509 data with
          | (Some _, bio') => S (certificates_ahead (S n) bio')
          | (None, _) => O
          end) in Hholds.
  change (certificates (S kMaxCertChain) data)
    with (match PEM_read_bio_X509 data with
          | (Some x, bio') => x :: certificates kMaxCertChain bio'
          | (None, _) => []
          end).
  destruct (PEM_read_bio_X509 data) as [[x|] bio'] eqn:Hread; [|discriminate].
  assert (Hn : certificates_ahead (S n) bio' = n) by congruence.
  destruct (loadCertificateFromBufferPEM_leaf data x bio' w Hbio Hsize Hread)
    as [q ->].
  assert (Hlength : length (certificates kMaxCertChain bio') = Nat.min n kMaxCertChain).
  { rewrite certificates_length.
    destruct (Nat.le_gt_cases n kMaxCertChain) as [Hle|Hgt].
    - rewrite (certificates_ahead_stable n kMaxCertChain bio' Hn Hle). lia.
    - rewrite (certificates_ahead_prefix n kMaxCertChain bio');
        [lia | apply certificates_ahead_all, Hn | lia]. }
  cbn [library_takes].
  destruct (fst (SSL_CTX_use_certificate (cert (ctx_ (self w))) x) =? 0).
  { split; [intros c' Htakes; discriminate Htakes|]. split.
    - intros _ _.
      match goal with |- context [bind getErrors _ ?w1] =>
        destruct (getErrors_run w1) as [errors Herrors] end.
      exists "SSL_CTX_use_certificate"%string, errors. eexists.
      split; [left; reflexivity|].
      rewrite (bind_returns _ _ _ _ _ Herrors). reflexivity.
    - cbn [length]. rewrite Hlength. unfold kMaxCertChain. lia. }
  match goal with |- context [load_chain kMaxCertChain bio' ?w1] =>
    pose proof (load_chain_run kMaxCertChain bio' w1) as Hloop;
    change (cert (ctx_ (self w1)))
      with (snd (SSL_CTX_use_certificate (cert (ctx_ (self w))) x)) in Hloop
  end.
  destruct (chain_taken (snd (SSL_CTX_use_certificate (cert (ctx_ (self w))) x))
              (certificates kMaxCertChain bio')) as [c1|].
  - split; [|split].
    + intros c' Htakes. inversion Htakes; subst c'. rewrite Hlength in Hloop. split.
      * intros [_ Hhi].
        destruct (Nat.ltb_spec (Nat.min n kMaxCertChain) kMaxCertChain) as [_|Hge];
          [exact Hloop | unfold kMaxCertChain in Hge; lia].
      * intros Hlo.
        destruct (Nat.ltb_spec (Nat.min n kMaxCertChain) kMaxCertChain) as [Hlt|_];
          [unfold kMaxCertChain in Hlt; lia|].
        destruct Hloop as [q' Hloop]. eexists. exists q'.
        split; [exact Hloop | reflexivity].
    + intros Htakes. discriminate Htakes.
    + cbn [length]. rewrite Hlength. unfold kMaxCertChain. lia.
  - split; [|split].
    + intros c' Htakes. discriminate Htakes.
    + intros _ _. destruct Hloop as (errors & w' & Hloop).
      exists "SSL_CTX_add0_chain_cert"%string, errors, w'.
      split; [right; reflexivity | exact Hloop].
    + cbn [length]. rewrite Hlength. unfold kMaxCertChain. lia.
Qed.

End Credentials.

(** ** Certificate and key pairs *)

Section CertKeyPair.
Context `{OpenSSL}.

Lemma isCertKeyPairValid_run (w : World) :
  exists q,
    isCertKeyPairValid w =
      (Returns (SSL_CTX_check_private_key (cert (ctx_ (self w))) =? 1),
       with_ERR_queue (fun _ => q) w).
Proof.
  unfold isCertKeyPairValid.
  destruct (report_run "SSL_CTX_check_private_key"
              (SSL_CTX_check_private_key (cert (ctx_ (self w)))) w) as [q Hq].
  exists q. unfold bind, gets, ret. rewrite Hq. reflexivity.
Qed.

(** Telling the mismatch error from the errors of the single loaders. *)
Ltac other_error H :=
  inversion H; subst; unfold mismatch; intros Hsame; inversion Hsame.

Ltac throw_after_getErrors w H :=
  let errors := fresh "errors" in
  let Herrors := fresh "Herrors" in
  destruct (getErrors_run w) as [errors Herrors];
  rewrite (bind_returns _ _ _ _ _ Herrors) in H; unfold throw in H; other_error H.

Lemma load_chain_other_error (rounds : nat) (bio : BIO) (w w' : World) (e : exception) :
  load_chain rounds bio w = (Throws e, w') -> e <> mismatch.
Proof.
  revert bio w. induction rounds as [|rounds IH]; intros bio w Hthrow.
  - cbn [load_chain] in Hthrow. unfold throw in Hthrow. other_error Hthrow.
  - cbn [load_chain] in Hthrow.
    destruct (PEM_read_bio_X509 bio) as [[x|] bio'] eqn:Hread.
    + rewrite (bind_returns _ _ _ _ _ (read_X509_some _ _ _ w Hread)) in Hthrow.
      destruct (on_CERT_run "SSL_CTX_add1_chain_cert"
                  (fun c => SSL_CTX_add1_chain_cert c x) w) as [q Hrun].
      rewrite (bind_returns _ _ _ _ _ Hrun) in Hthrow.
      destruct (fst (SSL_CTX_add1_chain_cert (cert (ctx_ (self w))) x) =? 0).
      * match type of Hthrow with bind getErrors _ ?w1 = _ =>
          throw_after_getErrors w1 Hthrow end.
      * exact (IH _ _ Hthrow).
    + rewrite (bind_returns _ _ _ _ _ (read_X509_none _ _ w Hread)) in Hthrow.
      discriminate Hthrow.
Qed.

Lemma loadCertificateFromBufferPEM_other_error
    (data : option (list ascii)) (w w' : World) (e : exception) :
  loadCertificateFromBufferPEM data w = (Throws e, w') -> e <> mismatch.
Proof.
  unfold loadCertificateFromBufferPEM. intros Hthrow.
  destruct data as [data|]; [|unfold throw in Hthrow; other_error Hthrow].
  destruct BIO_new_ok; cbn [negb] in Hthrow;
    [|unfold bind at 1, ERR_put_errors, modify in Hthrow;
      match type of Hthrow with bind getErrors _ ?w1 = _ =>
        throw_after_getErrors w1 Hthrow end].
  destruct (BIO_write [] data (to_int (Z.of_nat (length data)))) as [written bio].
  destruct ((written <=? 0) || negb (to_unsigned written =? Z.of_nat (length data)));
    [throw_after_getErrors w Hthrow|].
  destruct (PEM_read_bio_X509 bio) as [[x|] bio'] eqn:Hread.
  - rewrite (bind_returns _ _ _ _ _ (read_X509_some _ _ _ w Hread)) in Hthrow.
    destruct (on_CERT_run "SSL_CTX_use_certificate"
                (fun c => SSL_CTX_use_certificate c x) w) as [q Hrun].
    rewrite (bind_returns _ _ _ _ _ Hrun) in Hthrow.
    destruct (fst (SSL_CTX_use_certificate (cert (ctx_ (self w))) x) =? 0).
    + match type of Hthrow with bind getErrors _ ?w1 = _ =>
        throw_after_getErrors w1 Hthrow end.
    + exact (load_chain_other_error _ _ _ _ _ Hthrow).
  - rewrite (bind_returns _ _ _ _ _ (read_X509_none _ _ w Hread)) in Hthrow.
    match type of Hthrow with bind getErrors _ ?w1 = _ =>
      throw_after_getErrors w1 Hthrow end.
Qed.

Lemma loadPrivateKeyFromBufferPEM_other_error
    (data : option (list ascii)) (w w' : World) (e : exception) :
  loadPrivateKeyFromBufferPEM data w = (Throws e, w') -> e <> mismatch.
Proof.
  unfold loadPrivateKeyFromBufferPEM. intros Hthrow.
  destruct data as [data|]; [|unfold throw in Hthrow; other_error Hthrow].
  destruct BIO_new_ok; cbn [negb] in Hthrow;
    [|unfold bind at 1, ERR_put_errors, modify in Hthrow;
      match type of Hthrow with bind getErrors _ ?w1 = _ =>
        throw_after_getErrors w1 Hthrow end].
  destruct (BIO_write [] data (to_int (Z.of_nat (length data)))) as [written bio].
  destruct ((written <=? 0) || negb (to_unsigned written =? Z.of_nat (length data)));
    [throw_after_getErrors w Hthrow|].
  unfold read_PrivateKey in Hthrow.
  destruct (PEM_read_bio_PrivateKey bio) as [[k|] bio'] eqn:Hread.
  - unfold bind at 1, ret at 1 in Hthrow.
    destruct (on_CERT_run "SSL_CTX_use_PrivateKey"
                (fun c => SSL_CTX_use_PrivateKey c k) w) as [q Hrun].
    rewrite (bind_returns _ _ _ _ _ Hrun) in Hthrow.
    destruct (fst (SSL_CTX_use_PrivateKey (cert (ctx_ (self w))) k) =? 0).
    + match type of Hthrow with bind getErrors _ ?w1 = _ =>
        throw_after_getErrors w1 Hthrow end.
    + discriminate Hthrow.
  - unfold bind at 1 2, ERR_put_errors, modify, ret in Hthrow.
    match type of Hthrow with bind getErrors _ ?w1 = _ =>
      throw_after_getErrors w1 Hthrow end.
Qed.

Lemma loadCertificate_other_error (path format : option string) (w w' : World)
    (e : exception) :
  loadCertificate path format w = (Throws e, w') -> e <> mismatch.
Proof.
  unfold loadCertificate. intros Hthrow.
  destruct path as [p|], format as [f|];
    try (unfold throw in Hthrow; other_error Hthrow; fail).
  destruct (String.eqb f "PEM"); [|unfold throw in Hthrow; other_error Hthrow].
  destruct (on_CERT_run "SSL_CTX_use_certificate_chain_file"
              (fun c => SSL_CTX_use_certificate_chain_file c p) w) as [q Hrun].
  rewrite (bind_returns _ _ _ _ _ Hrun) in Hthrow.
  destruct (negb (fst (SSL_CTX_use_certificate_chain_file (cert (ctx_ (self w))) p) =? 1));
    [|discriminate Hthrow].
  unfold getErrors_errno, bind, gets, ERR_clear_error, modify, ret, throw in Hthrow.
  other_error Hthrow.
Qed.

Lemma loadPrivateKey_other_error (path format : option string) (w w' : World)
    (e : exception) :
  loadPrivateKey path format w = (Throws e, w') -> e <> mismatch.
Proof.
  unfold loadPrivateKey. intros Hthrow.
  destruct path as [p|], format as [f|];
    try (unfold throw in Hthrow; other_error Hthrow; fail).
  destruct (String.eqb f "PEM"); [|unfold throw in Hthrow; other_error Hthrow].
  destruct (on_CERT_run "SSL_CTX_use_PrivateKey_file"
              (fun c => SSL_CTX_use_PrivateKey_file c p) w) as [q Hrun].
  rewrite (bind_returns _ _ _ _ _ Hrun) in Hthrow.
  destruct (fst (SSL_CTX_use_PrivateKey_file (cert (ctx_ (self w))) p) =? 0);
    [|discriminate Hthrow].
  match type of Hthrow with bind getErrors _ ?w1 = _ =>
    throw_after_getErrors w1 Hthrow end.
Qed.

(** None of the loaders ends the process: they hold no [CHECK]. *)

Lemma never_aborts_ret {A} (a : A) : never_aborts (ret a).
Proof. intros w c w'. discriminate. Qed.

Lemma never_aborts_throw {A} (e : exception) : never_aborts (@throw _ A e).
Proof. intros w c w'. discriminate. Qed.

Lemma never_aborts_gets {A} (f : World -> A) : never_aborts (gets f).
Proof. intros w c w'. discriminate. Qed.

Lemma never_aborts_modify (f : World -> World) : never_aborts (modify f).
Proof. intros w c w'. discriminate. Qed.

Lemma never_aborts_bind {A B} (m : M A) (k : A -> M B) :
  never_aborts m -> (forall a, never_aborts (k a)) -> never_aborts (bind m k).
Proof.
  intros Hm Hk w c w'. unfold bind. destruct (m w) as [[a | e | c0] w1] eqn:Hrun.
  - apply Hk.
  - discriminate.
  - destruct (Hm _ _ _ Hrun).
Qed.

Ltac returns_or_throws known :=
  repeat first
    [ known
    | apply never_aborts_ret
    | apply never_aborts_throw
    | apply never_aborts_gets
    | apply never_aborts_modify
    | apply never_aborts_bind; [|intros ?]
    | match goal with
      | |- never_aborts (match ?x with _ => _ end) => destruct x
      | |- never_aborts (let (_, _) := ?x in _) => destruct x
      end ].

Lemma never_aborts_getErrors : never_aborts getErrors.
Proof. unfold getErrors, getErrors_errno, ERR_clear_error. returns_or_throws fail. Qed.

Lemma never_aborts_on_CERT (name : string) (f : CERT -> Z * CERT) :
  never_aborts (on_CERT name f).
Proof. unfold on_CERT, report, ERR_put_errors. returns_or_throws fail. Qed.

Lemma never_aborts_read_X509 (bio : BIO) : never_aborts (read_X509 bio).
Proof. unfold read_X509, ERR_put_errors. returns_or_throws fail. Qed.

Lemma never_aborts_read_PrivateKey (bio : BIO) : never_aborts (read_PrivateKey bio).
Proof. unfold read_PrivateKey, ERR_put_errors. returns_or_throws fail. Qed.

Ltac loader_calls :=
  first
    [ apply never_aborts_getErrors
    | apply never_aborts_on_CERT
    | apply never_aborts_read_X509
    | apply never_aborts_read_PrivateKey ].

Lemma never_aborts_load_chain (rounds : nat) (bio : BIO) :
  never_aborts (load_chain rounds bio).
Proof.
  revert bio. induction rounds as [|rounds IH]; intros bio; cbn [load_chain].
  - returns_or_throws fail.
  - unfold ERR_clear_error. returns_or_throws ltac:(first [apply IH | loader_calls]).
Qed.

Lemma never_aborts_loadCertificateFromBufferPEM (data : option (list ascii)) :
  never_aborts (loadCertificateFromBufferPEM data).
Proof.
  unfold loadCertificateFromBufferPEM, ERR_put_errors.
  returns_or_throws ltac:(first [apply never_aborts_load_chain | loader_calls]).
Qed.

Lemma never_aborts_loadPrivateKeyFromBufferPEM (data : option (list ascii)) :
  never_aborts (loadPrivateKeyFromBufferPEM data).
Proof.
  unfold loadPrivateKeyFromBufferPEM, ERR_put_errors. returns_or_throws loader_calls.
Qed.

Lemma never_aborts_loadCertificate (path format : option string) :
  never_aborts (loadCertificate path format).
Proof.
  unfold loadCertificate, getErrors_errno, ERR_clear_error. returns_or_throws loader_calls.
Qed.

Lemma never_aborts_loadPrivateKey (path format : option string) :
  never_aborts (loadPrivateKey path format).
Proof. unfold loadPrivateKey. returns_or_throws loader_calls. Qed.

(** The shape both pair loaders share: load the certificate, load the key,
    then ask the library whether they belong together. *)
Lemma load_then_check (loadCert loadKey : M unit) (w : World) :
  never_aborts loadCert ->
  never_aborts loadKey ->
  (forall w0 w' e, loadCert w0 = (Throws e, w') -> e <> mismatch) ->
  (forall w0 w' e, loadKey w0 = (Throws e, w') -> e <> mismatch) ->
  checks_match loadCert loadKey
    (bind loadCert (fun _ => bind loadKey (fun _ => bind isCertKeyPairValid
       (fun valid => if negb valid then throw mismatch else ret tt)))) w.
Proof.
  intros Hcert_na Hkey_na Hcert Hkey.
  set (pair := bind loadCert (fun _ => bind loadKey (fun _ => bind isCertKeyPairValid
                 (fun valid => if negb valid then throw mismatch else ret tt)))).
  assert (Hboth : forall w1 w2,
     loadCert w = (Returns tt, w1) -> loadKey w1 = (Returns tt, w2) ->
     exists w3,
       self w3 = self w2 /\
       pair w = (if SSL_CTX_check_private_key (cert (ctx_ (self w2))) =? 1
                 then Returns tt else Throws mismatch, w3)).
  { intros w1 w2 H1 H2. unfold pair.
    rewrite (bind_returns _ _ _ _ _ H1), (bind_returns _ _ _ _ _ H2).
    destruct (isCertKeyPairValid_run w2) as [q Hvalid].
    rewrite (bind_returns _ _ _ _ _ Hvalid).
    exists (with_ERR_queue (fun _ => q) w2). split; [reflexivity|].
    destruct (SSL_CTX_check_private_key (cert (ctx_ (self w2))) =? 1); reflexivity. }
  assert (Hcases :
     (exists w1 w2, loadCert w = (Returns tt, w1) /\ loadKey w1 = (Returns tt, w2)) \/
     (exists e w', e <> mismatch /\ pair w = (Throws e, w'))).
  { destruct (loadCert w) as [[[] | e | c] w1] eqn:H1.
    - destruct (loadKey w1) as [[[] | e | c] w2] eqn:H2.
      + left. eauto.
      + right. exists e, w2. split; [exact (Hkey _ _ _ H2)|].
        unfold pair. rewrite (bind_returns _ _ _ _ _ H1). unfold bind. rewrite H2.
        reflexivity.
      + destruct (Hkey_na _ _ _ H2).
    - right. exists e, w1. split; [exact (Hcert _ _ _ H1)|].
      unfold pair, bind. rewrite H1. reflexivity.
    - destruct (Hcert_na _ _ _ H1). }
  split; [|split; [exact Hboth|]].
  - destruct Hcases as [(w1 & w2 & H1 & H2) | (e & w' & _ & Hrun)].
    + destruct (Hboth _ _ H1 H2) as (w3 & Hself & Hrun). exists w3.
      destruct (Z.eqb_spec (SSL_CTX_check_private_key (cert (ctx_ (self w2)))) 1) as [Hv|Hv].
      * left. split; [exact Hrun | rewrite Hself; exact Hv].
      * right. exists mismatch. exact Hrun.
    + exists w'. right. exists e. exact Hrun.
  - intros w' Hthrow. destruct Hcases as [(w1 & w2 & H1 & H2) | (e & w0 & Hother & Hrun)].
    + exists w1, w2. split; [exact H1|]. split; [exact H2|].
      destruct (Hboth _ _ H1 H2) as (w3 & Hself & Hrun). rewrite Hrun in Hthrow.
      destruct (Z.eqb_spec (SSL_CTX_check_private_key (cert (ctx_ (self w2)))) 1) as [Hv|Hv];
        [discriminate Hthrow | exact Hv].
    + rewrite Hrun in Hthrow. inversion Hthrow; subst. destruct (Hother eq_refl).
Qed.

(** C4: both pair loaders check the match once certificate and key are
    loaded ([checks_match]).  Each returns only with a pair the library
    finds matching and throws otherwise; when both loads succeed it throws
    the mismatch error exactly when the library finds no match; it throws
    the mismatch error in no other case.  [isCertKeyPairValid()] never
    throws and returns true exactly when the library finds the stored key
    to match the stored certificate. *)
Theorem loadCertKeyPair_checks_match (w : World) :
  (forall certPEM keyPEM,
     checks_match (loadCertificateFromBufferPEM certPEM)
                  (loadPrivateKeyFromBufferPEM keyPEM)
                  (loadCertKeyPairFromBufferPEM certPEM keyPEM) w) /\
  (forall certPath keyPath certFormat keyFormat,
     checks_match (loadCertificate certPath certFormat)
                  (loadPrivateKey keyPath keyFormat)
                  (loadCertKeyPairFromFiles certPath keyPath certFormat keyFormat) w) /\
  (exists valid w',
     isCertKeyPairValid w = (Returns valid, w') /\ self w' = self w /\
     (valid = true <-> SSL_CTX_check_private_key (cert (ctx_ (self w))) = 1)).
Proof.
  split; [|split].
  - intros certPEM keyPEM.
    apply (load_then_check (loadCertificateFromBufferPEM certPEM)
             (loadPrivateKeyFromBufferPEM keyPEM) w).
    + apply never_aborts_loadCertificateFromBufferPEM.
    + apply never_aborts_loadPrivateKeyFromBufferPEM.
    + intros w0 w' e. apply loadCertificateFromBufferPEM_other_error.
    + intros w0 w' e. apply loadPrivateKeyFromBufferPEM_other_error.
  - intros certPath keyPath certFormat keyFormat.
    apply (load_then_check (loadCertificate certPath certFormat)
             (loadPrivateKey keyPath keyFormat) w).
    + apply never_aborts_loadCertificate.
    + apply never_aborts_loadPrivateKey.
    + intros w0 w' e. apply loadCertificate_other_error.
    + intros w0 w' e. apply loadPrivateKey_other_error.
  - destruct (isCertKeyPairValid_run w) as [q Hvalid].
    eexists. eexists. split; [exact Hvalid|]. split; [reflexivity|].
    apply Z.eqb_eq.
Qed.

End CertKeyPair.

(** ** Application protocol negotiation *)

Lemma freed_lookup_Some (ps : list nat) (m : gmap nat (list ascii)) (k : nat)
    (v : list ascii) :
  freed ps m !! k = Some v <-> ~ In k ps /\ m !! k = Some v.
Proof.
  unfold freed. revert m. induction ps as [|p ps IH]; intros m; simpl.
  - tauto.
  - rewrite IH. rewrite lookup_delete_Some. intuition congruence.
Qed.


Lemma to_int_idem (z : Z) : to_int (to_int z) = to_int z.
Proof.
  apply to_int_small. unfold to_int.
  pose proof (Z.mod_pos_bound (z + 2 ^ 31) (2 ^ 32)). lia.
Qed.

Lemma to_int_add_l (a b : Z) : to_int (to_int a + b) = to_int (a + b).
Proof.
  unfold to_int. f_equal.
  replace ((a + 2 ^ 31) mod 2 ^ 32 - 2 ^ 31 + b + 2 ^ 31)
    with ((a + 2 ^ 31) mod 2 ^ 32 + b) by lia.
  rewrite Zplus_mod_idemp_l. f_equal. lia.
Qed.

Lemma advertised_length_short (protos : list string) (length0 length1 : Z) :
  advertised_length protos length0 = Some length1 ->
  forall proto, In proto protos -> (String.length proto < 256)%nat.
Proof.
  revert length0. induction protos as [|p protos IH]; intros length0 Hlen proto Hin.
  - destruct Hin.
  - cbn [advertised_length] in Hlen.
    destruct (Z.leb_spec 256 (Z.of_nat (String.length p))) as [|Hshort]; [discriminate|].
    destruct Hin as [<- | Hin]; [lia | exact (IH _ Hlen _ Hin)].
Qed.

Section Negotiation.
Context `{OpenSSL}.

Lemma for_each_delete (ps : list AdvertisedNextProtocolsItem) (w : World) :
  for_each ps (fun protocols => delete_array (adv_protocols protocols)) w =
    (Returns tt,
     with_heap (fun h => mkHeap (freed (map adv_protocols ps) (cells h)) (brk h)) w).
Proof.
  revert w. induction ps as [|p ps IH]; intros w.
  - simpl. unfold ret. destruct w as [s q e l [c b]]. reflexivity.
  - cbn [for_each]. unfold bind at 1. unfold delete_array at 1. unfold modify at 1.
    rewrite IH. destruct w as [s q e l [c b]]. reflexivity.
Qed.

Lemma deleteNextProtocolsStrings_run (w : World) :
  deleteNextProtocolsStrings w = (Returns tt, strings_deleted w).
Proof.
  unfold deleteNextProtocolsStrings, bind, gets. rewrite for_each_delete. reflexivity.
Qed.

Lemma unsetNextProtocols_run (w : World) :
  unsetNextProtocols w = (Returns tt, protocols_unset w).
Proof.
  unfold unsetNextProtocols.
  rewrite (bind_returns _ _ _ _ _ (deleteNextProtocolsStrings_run w)).
  unfold SSL_CTX_set_alpn_select_cb, SSL_CTX_set_alpn_protos.
  destruct (alpn_memdup_ok None); reflexivity.
Qed.

Lemma alpn_disabled_unset (w : World) : alpn_disabled (protocols_unset w).
Proof. repeat split. Qed.


Lemma getAdvertisedNextProtocols_disabled (w : World) :
  advertisedNextProtocols_ (self w) = [] ->
  getAdvertisedNextProtocols w = (Returns ""%string, w).
Proof.
  intros Hnone. unfold getAdvertisedNextProtocols, bind, gets. rewrite Hnone. reflexivity.
Qed.

(** The loop over the groups.  It never throws.  When it ends the call
    ([None]) nothing is kept; when it runs to its end no name is too long
    and the weight it hands back is the sum of the weights of the kept
    groups, taken as an [int].  The library state stays as it was, and no
    array that was not live before outlives the arrays the context owns. *)
Lemma advertise_run (items : list NextProtocolsItem) (total_weight : Z) (w : World) :
  exists r w',
    advertise items total_weight w = (Returns r, w') /\
    ctx_ (self w') = ctx_ (self w) /\
    freed (owned w') (cells (heap w')) ⊆ freed (owned w) (cells (heap w)) /\
    match r with
    | None =>
        advertisedNextProtocols_ (self w') = [] /\
        advertisedNextProtocolWeights_ (self w') = []
    | Some t =>
        ~ has_long_name items /\
        (to_int total_weight = total_weight ->
         t = to_int (total_weight + total_weight_of items))
    end.
Proof.
  revert total_weight w. induction items as [|item items IH]; intros total_weight w.
  - exists (Some total_weight), w. split; [reflexivity|]. split; [reflexivity|].
    split; [reflexivity|]. split.
    + intros (item & proto & [] & _).
    + intros Hint. unfold total_weight_of. simpl. rewrite Z.add_0_r. congruence.
  - cbn [advertise].
    destruct (protocols item) as [|proto protos] eqn:Hprotos.
    + destruct (IH total_weight w) as (r & w' & Hrun & Hctx & Hheap & Hr).
      exists r, w'. split; [exact Hrun|]. split; [exact Hctx|]. split; [exact Hheap|].
      destruct r as [t|]; [|exact Hr]. destruct Hr as [Hshort Hsum]. split.
      * intros (item' & proto' & [<- | Hin] & Hproto & Hlong).
        -- rewrite Hprotos in Hproto. destruct Hproto.
        -- apply Hshort. exists item', proto'. auto.
      * intros Hint. rewrite (Hsum Hint). unfold total_weight_of, kept.
        rewrite filter_cons_False; [reflexivity|]. rewrite Hprotos. tauto.
    + destruct (advertised_length (proto :: protos) 0) as [len|] eqn:Hlen.
      * unfold new_array. unfold bind at 1 2 3. unfold gets at 1. unfold modify at 1.
        unfold ret at 1. cbn [Nat.eqb].
        unfold bind at 1 2. unfold write_array at 1. unfold modify at 1 2.
        match goal with |- context [advertise items ?t ?w1] =>
          destruct (IH t w1) as (r & w' & Hrun & Hctx & Hheap & Hr) end.
        exists r, w'. split; [exact Hrun|]. split; [rewrite Hctx; reflexivity|].
        split.
        -- etransitivity; [exact Hheap|].
           apply map_subseteq_spec. intros k v Hk.
           apply freed_lookup_Some in Hk. destruct Hk as [Hnotin Hk].
           apply freed_lookup_Some.
           unfold owned in *. cbn in Hnotin, Hk. rewrite map_app, in_app_iff in Hnotin.
           cbn in Hnotin.
           assert (Hne : S (brk (heap w)) <> k) by tauto.
           rewrite lookup_alter_ne, lookup_insert_ne in Hk by exact Hne.
           split; [tauto | exact Hk].
        -- destruct r as [t|]; [|exact Hr]. destruct Hr as [Hshort Hsum]. split.
           ++ intros (item' & proto' & [<- | Hin] & Hproto & Hlong).
              ** rewrite Hprotos in Hproto.
                 pose proof (advertised_length_short _ _ _ Hlen _ Hproto). lia.
              ** apply Hshort. exists item', proto'. auto.
           ++ intros _. rewrite (Hsum (to_int_idem _)), to_int_add_l.
              unfold total_weight_of, kept.
              rewrite filter_cons_True by (rewrite Hprotos; discriminate).
              simpl. f_equal. lia.
      * rewrite (bind_returns _ _ _ _ _ (deleteNextProtocolsStrings_run w)).
        exists None, (strings_deleted w). split; [reflexivity|]. split; [reflexivity|].
        split; [|split; reflexivity].
        unfold owned, strings_deleted. simpl. reflexivity.
Qed.

Lemma protocols_unset_idem (w : World) :
  protocols_unset (protocols_unset w) = protocols_unset w.
Proof. destruct w as [[n vp vc vs cn pn r a ws d] q e l [c b]]. reflexivity. Qed.

(** C9: [unsetNextProtocols] returns, and a second call right after it
    returns in the very world the first one left: buffers, weights, the
    registered callback, the protocol list held by the library, the error
    queue and the heap are all as after one call.  That world has
    negotiation disabled; and on a context whose negotiation is disabled
    already, with nothing on the error queue, even the first call changes
    nothing. *)
Theorem unsetNextProtocols_idempotent (w : World) :
  exists w1,
    unsetNextProtocols w = (Returns tt, w1) /\
    unsetNextProtocols w1 = (Returns tt, w1) /\
    alpn_disabled w1 /\
    (alpn_disabled w -> self w1 = self w /\ heap w1 = heap w) /\
    (alpn_disabled w -> ERR_queue w = [] -> w1 = w).
Proof.
  exists (protocols_unset w).
  split; [apply unsetNextProtocols_run|].
  split; [rewrite unsetNextProtocols_run, protocols_unset_idem; reflexivity|].
  split; [apply alpn_disabled_unset|].
  assert (Hsame : alpn_disabled w ->
            self (protocols_unset w) = self w /\ heap (protocols_unset w) = heap w).
  { destruct w as [[[x s ca cb pr cl] vp vc vs cn pn r a ws d] q e l [c b]].
    unfold alpn_disabled. simpl. intros (-> & -> & -> & ->). split; reflexivity. }
  split; [exact Hsame|].
  intros Hoff Hq. destruct (Hsame Hoff) as [Hself Hheap].
  destruct w as [s q e l h]. simpl in Hq. subst q.
  transitivity (mkWorld (self (protocols_unset (mkWorld s [] e l h))) [] e l
                  (heap (protocols_unset (mkWorld s [] e l h)))); [reflexivity|].
  rewrite Hself, Hheap. reflexivity.
Qed.



End Negotiation.

(** ** Host name matching *)

Lemma toupper_star (d : ascii) : toupper d = "*"%char -> d = "*"%char.
Proof.
  destruct d as [[|] [|] [|] [|] [|] [|] [|] [|]]; vm_compute; congruence.
Qed.

Lemma toupper_dot (d : ascii) : toupper "."%char = toupper d -> d = "."%char.
Proof.
  destruct d as [[|] [|] [|] [|] [|] [|] [|] [|]]; vm_compute; congruence.
Qed.

Lemma char_at_app (pre rest : list ascii) :
  char_at (pre ++ rest) (length pre) = hd NUL rest.
Proof.
  unfold char_at. rewrite app_nth2 by lia. rewrite Nat.sub_diag.
  destruct rest; reflexivity.
Qed.

Lemma c_string_app (pre rest : list ascii) :
  c_string (pre ++ rest) -> c_string rest.
Proof. unfold c_string. rewrite Forall_app. tauto. Qed.

Lemma drop_component_split (host : list ascii) :
  exists s, host = s ++ drop_component host /\ Forall (fun d => d <> "."%char) s.
Proof.
  induction host as [|d host IH].
  - exists []. split; [reflexivity | constructor].
  - simpl. destruct (Ascii.eqb_spec d ".") as [->|Hd].
    + exists []. split; [reflexivity | constructor].
    + destruct IH as (s & Hs & Hdots). exists (d :: s). split.
      * simpl. f_equal. exact Hs.
      * constructor; assumption.
Qed.

(** The inner loop stops, within the fuel it is given, where
    [drop_component] says. *)
Lemma skip_component_stops (rest pre : list ascii) (fuel : nat) :
  c_string (pre ++ rest) ->
  (length rest < fuel)%nat ->
  exists s,
    rest = s ++ drop_component rest /\
    skip_component fuel (pre ++ rest) (length pre) = Some (length (pre ++ s)).
Proof.
  revert pre fuel. induction rest as [|d rest IH]; intros pre fuel Hc Hfuel;
    (destruct fuel as [|fuel]; [simpl in Hfuel; lia|]).
  - exists []. split; [reflexivity|]. cbn [skip_component].
    rewrite char_at_app. simpl. rewrite app_nil_r. reflexivity.
  - cbn [skip_component]. rewrite char_at_app. cbn [hd drop_component].
    destruct (Ascii.eqb_spec d ".") as [->|Hd].
    + exists []. split; [reflexivity|]. simpl. rewrite app_nil_r. reflexivity.
    + assert (HdNUL : d <> NUL).
      { apply c_string_app in Hc. inversion Hc; assumption. }
      destruct (Ascii.eqb_spec d NUL) as [|_]; [contradiction|]. cbn [negb andb].
      destruct (IH (pre ++ [d]) fuel) as (s & Hs & Hskip).
      * rewrite <- app_assoc. exact Hc.
      * simpl in Hfuel. lia.
      * exists (d :: s). split; [simpl; f_equal; exact Hs|].
        rewrite <- app_assoc in Hskip. simpl in Hskip.
        replace (S (length pre)) with (length (pre ++ [d]))
          by (rewrite length_app; simpl; lia).
        rewrite Hskip. f_equal. rewrite !length_app. simpl. lia.
Qed.

(** The outer loop, started anywhere in pattern and host, ends within its
    fuel, and the test after it gives what [scan_match] gives on what was
    left of the two. *)
Lemma matchName_loop_scan (p pre_p pre_h h : list ascii) (fuel : nat) :
  c_string (pre_h ++ h) ->
  (length p < fuel)%nat ->
  exists i j,
    matchName_loop fuel (pre_h ++ h) (pre_p ++ p) (Z.of_nat (length (pre_p ++ p)))
      (length pre_p) (length pre_h) = Some (i, j) /\
    (Z.of_nat i =? Z.of_nat (length (pre_p ++ p)))
      && Ascii.eqb (char_at (pre_h ++ h) j) NUL
    = scan_match p h.
Proof.
  revert pre_p pre_h h fuel.
  induction p as [|c p IH]; intros pre_p pre_h h fuel Hc Hfuel;
    (destruct fuel as [|fuel]; [simpl in Hfuel; lia|]); cbn [matchName_loop].
  - rewrite app_nil_r. rewrite Z.ltb_irrefl. cbn [andb].
    exists (length pre_p), (length pre_h). split; [reflexivity|].
    rewrite Z.eqb_refl, char_at_app. cbn [andb].
    destruct h as [|d h]; [reflexivity|]. simpl.
    apply c_string_app in Hc. inversion Hc; subst.
    destruct (Ascii.eqb_spec d NUL); [contradiction | reflexivity].
  - assert (Hi : (Z.of_nat (length pre_p) <? Z.of_nat (length (pre_p ++ c :: p))) = true).
    { apply Z.ltb_lt. rewrite length_app. simpl. lia. }
    assert (Hi' : (Z.of_nat (length pre_p) =? Z.of_nat (length (pre_p ++ c :: p))) = false).
    { apply Z.eqb_neq. rewrite length_app. simpl. lia. }
    rewrite Hi. rewrite !char_at_app. cbn [andb hd].
    destruct h as [|d h].
    + simpl. exists (length pre_p), (length pre_h). split; [reflexivity|].
      rewrite Hi'. reflexivity.
    + assert (HdNUL : d <> NUL).
      { apply c_string_app in Hc. inversion Hc; assumption. }
      cbn [hd scan_match].
      destruct (Ascii.eqb_spec d NUL) as [|_]; [contradiction|]. cbn [negb].
      destruct (Ascii.eqb (toupper c) (toupper d)).
      * destruct (IH (pre_p ++ [c]) (pre_h ++ [d]) h fuel) as (i & j & Hloop & Htest).
        -- rewrite <- app_assoc. exact Hc.
        -- simpl in Hfuel. lia.
        -- rewrite <- !app_assoc in Hloop, Htest. simpl in Hloop, Htest.
           replace (length (pre_p ++ [c])) with (S (length pre_p)) in Hloop
             by (rewrite length_app; simpl; lia).
           replace (length (pre_h ++ [d])) with (S (length pre_h)) in Hloop
             by (rewrite length_app; simpl; lia).
           exists i, j. split; assumption.
      * destruct (Ascii.eqb c "*").
        -- destruct (skip_component_stops (d :: h) pre_h (S (length (pre_h ++ d :: h))))
             as (s & Hs & Hskip); [exact Hc | rewrite length_app; simpl; lia |].
           rewrite Hskip.
           destruct (IH (pre_p ++ [c]) (pre_h ++ s) (drop_component (d :: h)) fuel)
             as (i & j & Hloop & Htest).
           ++ rewrite <- app_assoc, <- Hs. exact Hc.
           ++ simpl in Hfuel. lia.
           ++ rewrite <- !app_assoc, <- Hs in Hloop, Htest. simpl in Hloop, Htest.
              replace (length (pre_p ++ [c])) with (S (length pre_p)) in Hloop
                by (rewrite length_app; simpl; lia).
              exists i, j. split; assumption.
        -- exists (length pre_p), (length pre_h). split; [reflexivity|].
           rewrite Hi'. reflexivity.
Qed.

(** [matchName] always returns, and returns what the scan on lists gives. *)
Lemma matchName_total (host pattern : list ascii) :
  c_string host ->
  matchName host pattern (Z.of_nat (length pattern)) = Some (scan_match pattern host).
Proof.
  intros Hc. unfold matchName. rewrite Nat2Z.id.
  destruct (matchName_loop_scan pattern [] [] host (S (length pattern)))
    as (i & j & Hloop & Htest); [exact Hc | lia |].
  cbn [app length] in Hloop, Htest. rewrite Hloop, Htest. reflexivity.
Qed.

Lemma at_label_end_drop (host : list ascii) : at_label_end (drop_component host).
Proof.
  induction host as [|d host IH]; [exact I|]. simpl.
  destruct (Ascii.eqb_spec d "."); [assumption | exact IH].
Qed.

(** A run of characters without a dot, up to the end of the host or to a
    dot, is what [drop_component] skips. *)
Lemma drop_component_run (s host : list ascii) :
  Forall (fun d => d <> "."%char) s ->
  at_label_end host ->
  drop_component (s ++ host) = host.
Proof.
  intros Hs Hend. induction Hs as [|d s Hd _ IH].
  - destruct host as [|d host]; [reflexivity|]. simpl in Hend |- *. subst d.
    reflexivity.
  - simpl. destruct (Ascii.eqb_spec d "."); [contradiction | exact IH].
Qed.

Lemma toupper_star_differs (d : ascii) :
  d <> "*"%char -> Ascii.eqb (toupper "*") (toupper d) = false.
Proof.
  intros Hd. apply Ascii.eqb_neq. intros Heq. apply Hd, toupper_star.
  symmetry. exact Heq.
Qed.

(** The scan accepts exactly what [host_bound_match] describes. *)
Lemma scan_match_host_bound (pattern host : list ascii) :
  scan_match pattern host = true <-> host_bound_match pattern host.
Proof.
  split.
  - revert host. induction pattern as [|c pattern IH]; intros host Hscan.
    + destruct host; [constructor | discriminate].
    + destruct host as [|d host]; [discriminate|]. cbn [scan_match] in Hscan.
      destruct (Ascii.eqb_spec (toupper c) (toupper d)) as [Hcd|Hcd].
      * apply hb_char; [exact Hcd | apply IH, Hscan].
      * destruct (Ascii.eqb_spec c "*") as [->|_]; [|discriminate].
        destruct (drop_component_split (d :: host)) as (s & Hs & Hdots).
        apply (hb_star d host s pattern (drop_component (d :: host))).
        -- intros ->. apply Hcd. reflexivity.
        -- exact Hs.
        -- exact Hdots.
        -- apply at_label_end_drop.
        -- apply IH, Hscan.
  - induction 1 as [|c d pattern host Hcd _ IH
                    |d rest s pattern host Hd Hsplit Hs Hend _ IH].
    + reflexivity.
    + cbn [scan_match]. rewrite Hcd, Ascii.eqb_refl. exact IH.
    + cbn [scan_match]. rewrite (toupper_star_differs d Hd).
      cbn [Ascii.eqb Bool.eqb]. rewrite Hsplit, (drop_component_run s host Hs Hend).
      exact IH.
Qed.

Lemma star_free_app (s host : list ascii) :
  star_free (s ++ host) -> star_free host.
Proof. unfold star_free. rewrite Forall_app. tauto. Qed.

(** On a host without [*], what the code accepts the specification accepts. *)
Lemma host_bound_match_sound (pattern host : list ascii) :
  star_free host -> host_bound_match pattern host -> wildcard_match pattern host.
Proof.
  intros Hfree Hmatch.
  induction Hmatch as [|c d pattern host Hcd _ IH
                       |d rest s pattern host Hd Hsplit Hs Hend _ IH].
  - constructor.
  - inversion Hfree as [|? ? Hstar Hfree']; subst. apply wm_char.
    + intros ->. apply Hstar, toupper_star. symmetry. exact Hcd.
    + exact Hcd.
    + apply IH, Hfree'.
  - rewrite Hsplit in Hfree |- *. apply wm_star; [exact Hs | exact Hend |].
    apply IH. exact (star_free_app _ _ Hfree).
Qed.

(** Only stars consume an empty host. *)
Lemma wildcard_match_empty_host (pattern host : list ascii) :
  wildcard_match pattern host -> host = [] -> Forall (fun c => c = "*"%char) pattern.
Proof.
  induction 1 as [|c d pattern host _ _ _ _|s pattern host _ _ _ IH]; intros Hhost.
  - constructor.
  - discriminate Hhost.
  - apply app_eq_nil in Hhost. destruct Hhost as [_ Hhost].
    constructor; [reflexivity | exact (IH Hhost)].
Qed.

Lemma last_of_stars (pattern : list ascii) :
  Forall (fun c => c = "*"%char) pattern ->
  last ("*"%char :: pattern) = Some "*"%char.
Proof.
  induction 1 as [|c pattern Hc _ IH]; [reflexivity|]. subst c.
  rewrite last_cons. rewrite IH. reflexivity.
Qed.

Lemma last_tail (c : ascii) (pattern : list ascii) :
  last (c :: pattern) <> Some "*"%char -> last pattern <> Some "*"%char.
Proof.
  rewrite last_cons. destruct (last pattern); [auto | discriminate].
Qed.

(** On a host without [*], and for a pattern that does not end in [*], the
    code accepts what the specification accepts. *)
Lemma host_bound_match_complete (pattern host : list ascii) :
  wildcard_match pattern host ->
  star_free host ->
  last pattern <> Some "*"%char ->
  host_bound_match pattern host.
Proof.
  induction 1 as [|c d pattern host Hc Hcd _ IH|s pattern host Hs Hend Hmatch IH];
    intros Hfree Hlast.
  - constructor.
  - inversion Hfree; subst. apply hb_char; [exact Hcd|].
    apply IH; [assumption | exact (last_tail _ _ Hlast)].
  - destruct (s ++ host) as [|d rest] eqn:Hsplit.
    + apply app_eq_nil in Hsplit. destruct Hsplit as [_ Hhost].
      destruct Hlast. apply last_of_stars.
      exact (wildcard_match_empty_host _ _ Hmatch Hhost).
    + apply (hb_star d rest s pattern host).
      * inversion Hfree; assumption.
      * symmetry. exact Hsplit.
      * exact Hs.
      * exact Hend.
      * apply IH; [|exact (last_tail _ _ Hlast)].
        rewrite <- Hsplit in Hfree. exact (star_free_app _ _ Hfree).
Qed.

(** C2, as the code has it.  For every host (a C string) and pattern, with
    [size] the length of the pattern, [matchName] returns, and it returns
    true exactly when the pattern consumes the whole host where every [*]
    that does not face a [*] of the host is met before the host is used up
    and runs to the next dot.  On a host without [*] a true result means
    that the pattern consumes the whole host in the sense of the
    specification, and for a pattern that does not end in [*] the result is
    true exactly when it does so.  The three examples come out as stated. *)
Theorem matchName_wildcard (host pattern : list ascii) :
  c_string host ->
  exists result,
    matchName host pattern (Z.of_nat (length pattern)) = Some result /\
    (result = true <-> host_bound_match pattern host) /\
    (star_free host -> result = true -> wildcard_match pattern host) /\
    (star_free host -> last pattern <> Some "*"%char ->
       (result = true <-> wildcard_match pattern host)) /\
    matchName (cstr "foo.example.com") (cstr "*.example.com") 13 = Some true /\
    matchName (cstr "example.com") (cstr "*.example.com") 13 = Some false /\
    matchName (cstr "a.b.example.com") (cstr "*.example.com") 13 = Some false.
Proof.
  intros Hc. exists (scan_match pattern host).
  split; [apply matchName_total, Hc|].
  split; [apply scan_match_host_bound|].
  split; [|split; [|repeat split]].
  - intros Hfree Hscan. apply host_bound_match_sound; [exact Hfree|].
    apply scan_match_host_bound, Hscan.
  - intros Hfree Hlast. split.
    + intros Hscan. apply host_bound_match_sound; [exact Hfree|].
      apply scan_match_host_bound, Hscan.
    + intros Hmatch. apply scan_match_host_bound.
      apply host_bound_match_complete; assumption.
Qed.

(** C2, as the claim has it, fails: the pattern [a*] consumes the whole of
    the host [a], its [*] standing for no character, and [matchName]
    returns false. *)
Lemma matchName_trailing_star :
  matchName (cstr "a") (cstr "a*") 2 = Some false /\
  wildcard_match (cstr "a*") (cstr "a") /\
  ~ (matchName (cstr "a") (cstr "a*") 2 = Some true <->
     wildcard_match (cstr "a*") (cstr "a")).
Proof.
  assert (Hmatch : wildcard_match (cstr "a*") (cstr "a")).
  { apply wm_char; [discriminate | reflexivity |].
    apply (wm_star [] [] []); [constructor | exact I | constructor]. }
  split; [reflexivity|]. split; [exact Hmatch|].
  intros [_ Hback]. specialize (Hback Hmatch). discriminate Hback.
Qed.

(** Why the host is taken without [*] where the specification is compared:
    a [*] of the pattern that faces a [*] of the host stands for that one
    character.  So [*a] matches the host made of a star and [a], which the
    [*] of the specification would consume whole; and [*] alone does not
    match that host, which the [*] of the specification consumes. *)
Example matchName_star_in_host :
  matchName ["*"; "a"]%char (cstr "*a") 2 = Some true /\
  ~ wildcard_match (cstr "*a") ["*"; "a"]%char /\
  matchName ["*"; "a"]%char (cstr "*") 1 = Some false /\
  wildcard_match (cstr "*") ["*"; "a"]%char.
Proof.
  split; [reflexivity|]. split; [|split; [reflexivity|]].
  - intros Hmatch.
    inversion Hmatch as [|? ? ? ? Hc|s ? h Hs Hend Hrest Hpattern Hsplit]; subst.
    + congruence.
    + destruct s as [|x [|y [|z s]]]; simpl in Hsplit; inversion Hsplit; subst;
        simpl in Hend; try discriminate Hend; inversion Hrest.
  - apply (wm_star ["*"; "a"]%char [] []);
      [repeat constructor; discriminate | exact I | constructor].
Qed.

(** Where C2 applies: the host [www.example.com] and the pattern
    [*.Example.com]. *)
Lemma matchName_wildcard_witness :
  matchName (cstr "www.example.com") (cstr "*.Example.com") 13 = Some true /\
  wildcard_match (cstr "*.Example.com") (cstr "www.example.com").
Proof.
  destruct (matchName_wildcard (cstr "www.example.com") (cstr "*.Example.com"))
    as (result & Hrun & _ & Hsound & _).
  - repeat constructor; discriminate.
  - change (Z.of_nat (length (cstr "*.Example.com"))) with 13 in Hrun.
    assert (Hresult : result = true).
    { vm_compute in Hrun. inversion Hrun. reflexivity. }
    subst result. split; [exact Hrun|]. apply Hsound; [|reflexivity].
    repeat constructor; discriminate.
Defined.

(** ** Construction and the accept runner *)

Section Construction.
Context `{OpenSSL}.

(** C10 fails on the constructor that wraps a given [SSL_CTX]: it returns
    with the runner still null, and [sslAcceptRunner()] then returns a null
    pointer. *)
Theorem SSLContext_ctx_leaves_runner_null (ctx : SSL_CTX) (w : World) :
  SSL_CTX_up_ref_ok = true ->
  exists w',
    SSLContext_ctx ctx w = (Returns tt, w') /\
    sslAcceptRunner w' = (Returns None, w').
Proof.
  intros Hup. unfold SSLContext_ctx, setupCtx. rewrite Hup. run.
  eexists. split; reflexivity.
Qed.

(** The other constructor does install the inline runner. *)
Lemma SSLContext_version_installs_runner (version : SSLVersion) (w w' : World) :
  SSLContext_version version w = (Returns tt, w') ->
  sslAcceptRunner w' = (Returns (Some InlineRunner), w').
Proof.
  unfold SSLContext_version, configureProtocolVersion, setupCtx, getErrors, getErrors_errno.
  destruct SSL_CTX_new as [[c s]|]; destruct version; run; intros Hret;
    inversion Hret; subst; reflexivity.
Qed.

(** The setter never stores a null pointer. *)
Lemma set_sslAcceptRunner_keeps_runner (runner : option SSLAcceptRunner) (w : World) :
  sslAcceptRunner_ (self w) <> None ->
  exists w',
    set_sslAcceptRunner runner w = (Returns tt, w') /\
    sslAcceptRunner_ (self w') <> None /\
    (runner = None -> sslAcceptRunner_ (self w') = sslAcceptRunner_ (self w)).
Proof.
  intros Hset. destruct runner as [r|]; eexists; (split; [reflexivity|]); simpl.
  - split; [discriminate|]. discriminate.
  - split; [exact Hset | reflexivity].
Qed.

End Construction.

(** ** The statements at concrete inputs *)

(** Where C10 fails: wrapping a fresh [SSL_CTX]. *)
Lemma SSLContext_ctx_leaves_runner_null_witness :
  exists w',
    @SSLContext_ctx SmallSSL small_ctx small_world = (Returns tt, w') /\
    @sslAcceptRunner SmallSSL w' = (Returns None, w').
Proof.
  apply (@SSLContext_ctx_leaves_runner_null SmallSSL small_ctx small_world).
  reflexivity.
Defined.

(** Where C3 applies: 64 certificates load, 65 do not. *)
Lemma loadCertificateFromBufferPEM_chain_limit_witness :
  @loadCertificateFromBufferPEM SmallSSL (Some (pem_certificates 64)) small_world
    = (Returns tt,
       with_self (with_ctx_ (@set_cert SmallSSL (Some 97%nat, replicate 63 97%nat, None)))
         small_world) /\
  (exists what w',
     @loadCertificateFromBufferPEM SmallSSL (Some (pem_certificates 65)) small_world
       = (Throws (runtime_error what), w') /\
     cert (ctx_ (self w')) = (Some 97%nat, replicate 64 97%nat, None) /\
     occurs_in "Too many certificates in chain" what = true).
Proof.
  split.
  - destruct (@loadCertificateFromBufferPEM_chain_limit SmallSSL
                (pem_certificates 64) 64 small_world) as [Htaken _].
    + reflexivity.
    + vm_compute. split; reflexivity.
    + vm_compute. reflexivity.
    + destruct (Htaken (Some 97%nat, replicate 63 97%nat, None)) as [Hreturns _].
      * vm_compute. reflexivity.
      * rewrite Hreturns by lia. reflexivity.
  - destruct (@loadCertificateFromBufferPEM_chain_limit SmallSSL
                (pem_certificates 65) 65 small_world) as [Htaken _].
    + reflexivity.
    + vm_compute. split; reflexivity.
    + vm_compute. reflexivity.
    + destruct (Htaken (Some 97%nat, replicate 64 97%nat, None)) as [_ Hthrows].
      * vm_compute. reflexivity.
      * destruct Hthrows as (what & q & Hthrows & Hwhat); [lia|].
        exists what. eexists. split; [exact Hthrows|]. split; [reflexivity | exact Hwhat].
Defined.



(** Where C4 applies: the certificate [a] with the key [b] is refused, with
    the key [a] it is accepted. *)
Lemma loadCertKeyPair_checks_match_witness :
  (exists w',
     @loadCertKeyPairFromBufferPEM SmallSSL (Some (cstr "Ca")) (Some (cstr "Kb")) small_world
       = (Throws mismatch, w')) /\
  (exists w',
     @loadCertKeyPairFromBufferPEM SmallSSL (Some (cstr "Ca")) (Some (cstr "Ka")) small_world
       = (Returns tt, w')).
Proof.
  pose proof (@loadCertKeyPair_checks_match SmallSSL small_world) as [Hbuffer _].
  split.
  - destruct (Hbuffer (Some (cstr "Ca")) (Some (cstr "Kb"))) as (_ & Hboth & _).
    destruct (Hboth _ _ eq_refl eq_refl) as (w3 & _ & Hrun).
    exists w3. exact Hrun.
  - destruct (Hbuffer (Some (cstr "Ca")) (Some (cstr "Ka"))) as (_ & Hboth & _).
    destruct (Hboth _ _ eq_refl eq_refl) as (w3 & _ & Hrun).
    exists w3. exact Hrun.
Defined.

(** Where C8 applies: a client CA file that cannot be loaded. *)
Lemma loadClientCAList_never_throws_witness :
  exists w',
    @loadClientCAList SmallSSL (Some ""%string) small_world = (Returns tt, w') /\
    @self SmallSSL w' = @self SmallSSL small_world /\
    @throws SmallSSL unit (@loadTrustedCertificates SmallSSL (Some ""%string)) small_world.
Proof.
  destruct (@loadClientCAList_never_throws SmallSSL (Some ""%string) small_world)
    as (w' & Hret & Hfail & H3 & H4 & H5 & H6 & H7 & H8 & H9 & H10 & H11 & H12 & Htrust).
  exists w'. split; [exact Hret|]. split.
  - apply Hfail. reflexivity.
  - apply Htrust. reflexivity.
Defined.

(** Where C9 applies: a context that has protocols set, unset twice. *)
Lemma unsetNextProtocols_idempotent_witness :
  exists w0 w1,
    @setAdvertisedNextProtocols SmallSSL ["h2"%string] small_world = (Returns true, w0) /\
    @unsetNextProtocols SmallSSL w0 = (Returns tt, w1) /\
    @unsetNextProtocols SmallSSL w1 = (Returns tt, w1).
Proof.
  eexists.
  destruct (@unsetNextProtocols_idempotent SmallSSL
              (snd (@setAdvertisedNextProtocols SmallSSL ["h2"%string] small_world)))
    as (w1 & Hfirst & Hsecond & _).
  exists w1. split; [reflexivity|]. split; [exact Hfirst | exact Hsecond].
Defined.

(** ** The accept runner over the life of a context *)

Section Runner.
Context `{OpenSSL}.

Lemma frames_ret {A} (a : A) : frames_runner (ret a).
Proof. intros w. reflexivity. Qed.

Lemma frames_throw {A} (e : exception) : frames_runner (@throw _ A e).
Proof. intros w. reflexivity. Qed.

Lemma frames_gets {A} (f : World -> A) : frames_runner (gets f).
Proof. intros w. reflexivity. Qed.

Lemma frames_CHECK (cond : bool) (text : string) : frames_runner (CHECK cond text).
Proof. intros w. unfold CHECK. destruct cond; reflexivity. Qed.

Lemma frames_modify (f : World -> World) :
  (forall w, sslAcceptRunner_ (self (f w)) = sslAcceptRunner_ (self w)) ->
  frames_runner (modify f).
Proof. intros Hf w. apply Hf. Qed.

Lemma frames_bind {A B} (m : M A) (k : A -> M B) :
  frames_runner m -> (forall a, frames_runner (k a)) -> frames_runner (bind m k).
Proof.
  intros Hm Hk w. unfold bind. specialize (Hm w).
  destruct (m w) as [[a | e | c] w1]; simpl in *; [|exact Hm | exact Hm].
  rewrite (Hk a w1). exact Hm.
Qed.

Ltac frame_step :=
  first
    [ apply frames_ret
    | apply frames_throw
    | apply frames_gets
    | apply frames_CHECK
    | apply frames_modify; intros ?; reflexivity
    | apply frames_bind; [|intros ?]
    | assumption
    | match goal with
      | |- frames_runner (match ?x with _ => _ end) => destruct x
      | |- frames_runner (let (_, _) := ?x in _) => destruct x
      end ].

Ltac frames_with known := repeat first [known | frame_step].

Ltac frames := frames_with fail.

Lemma frames_report (name : string) (rc : Z) : frames_runner (report name rc).
Proof. unfold report, ERR_put_errors. frames. Qed.

Lemma frames_getErrors : frames_runner getErrors.
Proof. unfold getErrors, getErrors_errno, ERR_clear_error. frames. Qed.

Lemma frames_on_CERT (name : string) (f : CERT -> Z * CERT) : frames_runner (on_CERT name f).
Proof. unfold on_CERT. frames_with ltac:(apply frames_report). Qed.

Lemma frames_on_X509_STORE (name : string) (f : X509_STORE -> Z * X509_STORE) :
  frames_runner (on_X509_STORE name f).
Proof. unfold on_X509_STORE. frames_with ltac:(apply frames_report). Qed.

Lemma frames_read_X509 (bio : BIO) : frames_runner (read_X509 bio).
Proof. unfold read_X509, ERR_put_errors. frames. Qed.

Lemma frames_read_PrivateKey (bio : BIO) : frames_runner (read_PrivateKey bio).
Proof. unfold read_PrivateKey, ERR_put_errors. frames. Qed.

Ltac library_calls :=
  first
    [ apply frames_getErrors
    | apply frames_on_CERT
    | apply frames_on_X509_STORE
    | apply frames_read_X509
    | apply frames_read_PrivateKey
    | apply frames_report ].

Lemma frames_load_chain (rounds : nat) (bio : BIO) : frames_runner (load_chain rounds bio).
Proof.
  revert bio. induction rounds as [|rounds IH]; intros bio; cbn [load_chain].
  - frames.
  - unfold ERR_clear_error. frames_with ltac:(first [apply IH | library_calls]).
Qed.

Lemma frames_loadCertificateFromBufferPEM (data : option (list ascii)) :
  frames_runner (loadCertificateFromBufferPEM data).
Proof.
  unfold loadCertificateFromBufferPEM.
  frames_with ltac:(first [apply frames_load_chain | library_calls]).
Qed.

Lemma frames_loadPrivateKeyFromBufferPEM (data : option (list ascii)) :
  frames_runner (loadPrivateKeyFromBufferPEM data).
Proof. unfold loadPrivateKeyFromBufferPEM. frames_with library_calls. Qed.

Lemma frames_loadCertificate (path format : option string) :
  frames_runner (loadCertificate path format).
Proof.
  unfold loadCertificate, getErrors_errno, ERR_clear_error. frames_with library_calls.
Qed.

Lemma frames_loadPrivateKey (path format : option string) :
  frames_runner (loadPrivateKey path format).
Proof. unfold loadPrivateKey. frames_with library_calls. Qed.

Lemma frames_isCertKeyPairValid : frames_runner isCertKeyPairValid.
Proof. unfold isCertKeyPairValid. frames_with library_calls. Qed.

Lemma frames_for_each {A} (l : list A) (body : A -> M unit) :
  (forall a, frames_runner (body a)) -> frames_runner (for_each l body).
Proof.
  intros Hbody. induction l as [|a l IH]; cbn [for_each];
    frames_with ltac:(apply Hbody).
Qed.

Lemma frames_deleteNextProtocolsStrings : frames_runner deleteNextProtocolsStrings.
Proof.
  unfold deleteNextProtocolsStrings.
  frames_with ltac:(apply frames_for_each; intros ?; unfold delete_array).
Qed.

Lemma frames_SSL_CTX_set_alpn_protos (protos : option (list ascii)) :
  frames_runner (SSL_CTX_set_alpn_protos protos).
Proof. unfold SSL_CTX_set_alpn_protos, ERR_put_errors. frames. Qed.

Ltac protocol_calls :=
  first
    [ apply frames_deleteNextProtocolsStrings
    | apply frames_SSL_CTX_set_alpn_protos ].

Lemma frames_unsetNextProtocols : frames_runner unsetNextProtocols.
Proof.
  unfold unsetNextProtocols, SSL_CTX_set_alpn_select_cb, ERR_clear_error.
  frames_with protocol_calls.
Qed.

Lemma frames_advertise (items : list NextProtocolsItem) (total_weight : Z) :
  frames_runner (advertise items total_weight).
Proof.
  revert total_weight. induction items as [|item items IH]; intros total_weight;
    cbn [advertise].
  - frames.
  - unfold new_array, write_array. frames_with ltac:(first [apply IH | protocol_calls]).
Qed.

Lemma frames_setRandomizedAdvertisedNextProtocols (items : list NextProtocolsItem) :
  frames_runner (setRandomizedAdvertisedNextProtocols items).
Proof.
  unfold setRandomizedAdvertisedNextProtocols, SSL_CTX_set_alpn_select_cb,
    first_advertised, read_array.
  frames_with ltac:(first [ apply frames_unsetNextProtocols | apply frames_advertise
                          | protocol_calls ]).
Qed.

(** Every member function but the runner's setter leaves the runner alone. *)
Lemma perform_frames_runner (c : member_call) (w : World) :
  (forall r, c <> call_sslAcceptRunner r) ->
  sslAcceptRunner_ (self (perform c w)) = sslAcceptRunner_ (self w).
Proof.
  intros Hc. destruct c; cbn [perform];
    match goal with
    | |- sslAcceptRunner_ (self (snd (?m w))) = _ => enough (Hm : frames_runner m) by apply Hm
    end.
  - unfold setVerificationOption_peer. frames.
  - unfold setVerificationOption_client. frames.
  - unfold setVerificationOption_server. frames.
  - unfold authenticate, configure. frames.
  - apply frames_loadCertificate.
  - apply frames_loadCertificateFromBufferPEM.
  - apply frames_loadPrivateKey.
  - apply frames_loadPrivateKeyFromBufferPEM.
  - unfold loadCertKeyPairFromBufferPEM.
    frames_with ltac:(first [ apply frames_loadCertificateFromBufferPEM
                            | apply frames_loadPrivateKeyFromBufferPEM
                            | apply frames_isCertKeyPairValid ]).
  - unfold loadCertKeyPairFromFiles.
    frames_with ltac:(first [ apply frames_loadCertificate | apply frames_loadPrivateKey
                            | apply frames_isCertKeyPairValid ]).
  - unfold loadTrustedCertificates, ERR_clear_error. frames_with library_calls.
  - unfold loadTrustedCertificates_store. frames.
  - unfold loadClientCAList, ERR_put_errors. frames_with library_calls.
  - apply frames_setRandomizedAdvertisedNextProtocols.
  - apply frames_setRandomizedAdvertisedNextProtocols.
  - apply frames_unsetNextProtocols.
  - apply frames_deleteNextProtocolsStrings.
  - destruct (Hc runner eq_refl).
Qed.

(** A runner once installed stays installed, whatever is called. *)
Lemma perform_all_keeps_runner (calls : list member_call) (w : World) :
  sslAcceptRunner_ (self w) <> None ->
  sslAcceptRunner_ (self (perform_all calls w)) <> None.
Proof.
  unfold perform_all. revert w. induction calls as [|c calls IH]; intros w Hset; [exact Hset|].
  cbn [fold_left]. apply IH.
  destruct c; try (rewrite perform_frames_runner; [exact Hset | discriminate]).
  cbn [perform].
  destruct (set_sslAcceptRunner_keeps_runner runner w Hset) as (w' & Hrun & Hkept & _).
  rewrite Hrun. exact Hkept.
Qed.

(** So a context built by [SSLContext(SSLVersion)] always has a runner,
    while one built by [SSLContext(SSL_CTX* ctx)] has none until one is set. *)
Lemma version_context_always_has_runner (version : SSLVersion)
    (calls : list member_call) (w w0 : World) :
  SSLContext_version version w = (Returns tt, w0) ->
  exists runner,
    sslAcceptRunner (perform_all calls w0) = (Returns (Some runner), perform_all calls w0).
Proof.
  intros Hbuilt.
  pose proof (SSLContext_version_installs_runner version w w0 Hbuilt) as Hinstalled.
  assert (Hset : sslAcceptRunner_ (self w0) <> None).
  { unfold sslAcceptRunner, gets in Hinstalled. inversion Hinstalled as [Hrunner].
    rewrite Hrunner. discriminate. }
  pose proof (perform_all_keeps_runner calls w0 Hset) as Hkept.
  unfold sslAcceptRunner, gets.
  destruct (sslAcceptRunner_ (self (perform_all calls w0))) as [runner|];
    [exists runner; reflexivity | contradiction].
Qed.

End Runner.

(** ** Reading the advertised protocols back *)

(** The loop of [getAdvertisedNextProtocols] ends within the rounds it is
    given: further rounds change nothing. *)
Lemma commas_ends (fuel more : nat) (alpns : list ascii) (i : nat) :
  (length alpns - i <= fuel)%nat ->
  commas (fuel + more) alpns i = commas fuel alpns i.
Proof.
  revert alpns i. induction fuel as [|fuel IH]; intros alpns i Hfuel.
  - destruct more as [|more]; [reflexivity|]. cbn [Nat.add commas].
    destruct (Nat.ltb_spec i (length alpns)); [lia | reflexivity].
  - cbn [Nat.add commas].
    destruct (Nat.ltb_spec i (length alpns)); [|reflexivity].
    apply IH. rewrite length_insert. lia.
Qed.

(** * Further properties *)

(** ** Host name matching, continued *)

Lemma dots_app (s t : list ascii) : dots (s ++ t) = (dots s + dots t)%nat.
Proof. unfold dots. apply count_occ_app. Qed.

Lemma dots_none (s : list ascii) : Forall (fun d => d <> "."%char) s -> dots s = O.
Proof.
  unfold dots. induction 1 as [|d s Hd _ IH]; [reflexivity|].
  rewrite count_occ_cons_neq by exact Hd. exact IH.
Qed.

Lemma toupper_dot_l (c : ascii) : toupper c = toupper "."%char -> c = "."%char.
Proof. intros Hc. apply toupper_dot. symmetry. exact Hc. Qed.

Lemma host_bound_match_dots (pattern host : list ascii) :
  host_bound_match pattern host -> dots host = dots pattern.
Proof.
  induction 1 as [|c d pattern host Hcd _ IH
                  |d rest s pattern host Hd Hsplit Hs Hend _ IH].
  - reflexivity.
  - unfold dots in *. destruct (Ascii.ascii_dec c ".") as [->|Hdot].
    + apply toupper_dot in Hcd. subst d. rewrite !count_occ_cons_eq by reflexivity.
      f_equal. exact IH.
    + assert (Hd : d <> "."%char).
      { intros ->. apply Hdot. apply toupper_dot_l. exact Hcd. }
      rewrite !count_occ_cons_neq by assumption. exact IH.
  - rewrite Hsplit, dots_app, (dots_none s Hs), IH. unfold dots.
    rewrite count_occ_cons_neq by discriminate. reflexivity.
Qed.

(** X1: a match keeps the number of labels.  Whenever [matchName] returns
    true, host and pattern hold the same number of dots: no wildcard ever
    stands for a dot. *)
Theorem matchName_keeps_labels (host pattern : list ascii) :
  c_string host ->
  matchName host pattern (Z.of_nat (length pattern)) = Some true ->
  dots host = dots pattern.
Proof.
  intros Hc Hmatch. rewrite (matchName_total host pattern Hc) in Hmatch.
  apply host_bound_match_dots, scan_match_host_bound. congruence.
Qed.

Lemma matchName_keeps_labels_witness :
  matchName (cstr "www.example.com") (cstr "*.example.com") 13 = Some true /\
  dots (cstr "www.example.com") = dots (cstr "*.example.com").
Proof.
  split; [reflexivity|].
  apply (matchName_keeps_labels (cstr "www.example.com") (cstr "*.example.com")).
  - repeat constructor; discriminate.
  - reflexivity.
Defined.

Lemma char_at_take (n k : nat) (s : list ascii) :
  (k < n)%nat -> char_at (take n s) k = char_at s k.
Proof.
  unfold char_at. revert k s. induction n as [|n IH]; intros k s Hk; [lia|].
  destruct s as [|c s]; [destruct k; reflexivity|].
  destruct k as [|k]; [reflexivity|]. simpl. apply IH. lia.
Qed.

(** The loop looks at the pattern below [size] only. *)
Lemma matchName_loop_below_size (fuel : nat) (host p1 p2 : list ascii) (size : Z)
    (i j : nat) :
  (forall k, Z.of_nat k < size -> char_at p1 k = char_at p2 k) ->
  matchName_loop fuel host p1 size i j = matchName_loop fuel host p2 size i j.
Proof.
  intros Hsame. revert i j. induction fuel as [|fuel IH]; intros i j; [reflexivity|].
  cbn [matchName_loop].
  destruct (Z.ltb_spec (Z.of_nat i) size) as [Hi|Hi]; [|reflexivity].
  rewrite (Hsame i Hi). cbn [andb].
  destruct (negb (Ascii.eqb (char_at host j) NUL)); [|reflexivity].
  destruct (Ascii.eqb (toupper (char_at p2 i)) (toupper (char_at host j))); [apply IH|].
  destruct (Ascii.eqb (char_at p2 i) "*"); [|reflexivity].
  destruct (skip_component (S (length host)) host j); [apply IH | reflexivity].
Qed.

(** X2: [size] bounds what is read of the pattern.  A negative [size]
    matches no host, [size] 0 matches the empty host only, and for a
    [size] up to the length of the pattern the result is that of the
    pattern cut to its first [size] characters. *)
Theorem matchName_reads_size (host pattern : list ascii) (size : Z) :
  (size < 0 -> matchName host pattern size = Some false) /\
  (size = 0 -> c_string host ->
     matchName host pattern size = Some (match host with [] => true | _ => false end)) /\
  (0 <= size <= Z.of_nat (length pattern) ->
     matchName host pattern size = matchName host (take (Z.to_nat size) pattern) size).
Proof.
  split; [|split].
  - intros Hneg. destruct size as [|p|p]; try lia. reflexivity.
  - intros -> Hc. unfold matchName. simpl.
    destruct host as [|d host]; [reflexivity|].
    inversion Hc; subst. unfold char_at. cbn [nth].
    destruct (Ascii.eqb_spec d NUL); [contradiction|reflexivity].
  - intros Hsize. unfold matchName.
    rewrite (matchName_loop_below_size _ host pattern (take (Z.to_nat size) pattern)).
    + reflexivity.
    + intros k Hk. symmetry. apply char_at_take. lia.
Qed.

Lemma scan_match_star_free (pattern host : list ascii) :
  star_free pattern ->
  scan_match pattern host = true <-> map toupper host = map toupper pattern.
Proof.
  intros Hfree. revert host. induction Hfree as [|c pattern Hc _ IH]; intros host.
  - destruct host; simpl; split; congruence.
  - destruct host as [|d host]; [simpl; split; congruence|].
    cbn [scan_match map].
    destruct (Ascii.eqb_spec (toupper c) (toupper d)) as [Hcd|Hcd].
    + rewrite IH. split; [intros ->; congruence|]. intros Heq. congruence.
    + destruct (Ascii.eqb_spec c "*"); [contradiction|].
      split; [discriminate|]. intros Heq. congruence.
Qed.

(** X3: without a wildcard the match is equality without regard to case.
    For a pattern that holds no [*], [matchName] returns true exactly when
    host and pattern are the same once both are put in upper case. *)
Theorem matchName_without_wildcard (host pattern : list ascii) :
  c_string host ->
  star_free pattern ->
  exists result,
    matchName host pattern (Z.of_nat (length pattern)) = Some result /\
    (result = true <-> map toupper host = map toupper pattern).
Proof.
  intros Hc Hfree. exists (scan_match pattern host).
  split; [apply matchName_total, Hc | apply scan_match_star_free, Hfree].
Qed.

Lemma matchName_without_wildcard_witness :
  exists result,
    matchName (cstr "Example.COM") (cstr "example.com") 11 = Some result /\
    result = true.
Proof.
  destruct (matchName_without_wildcard (cstr "Example.COM") (cstr "example.com"))
    as (result & Hrun & Hiff).
  - repeat constructor; discriminate.
  - repeat constructor; discriminate.
  - exists result. split; [exact Hrun|]. apply Hiff. reflexivity.
Defined.

(** ** Verification options, continued *)

Section MoreVerification.
Context `{OpenSSL}.

(** X4: the modes [getVerificationMode()] can give.  It never throws; it
    fails its [CHECK] exactly when USE_CTX is stored; otherwise it returns
    SSL_VERIFY_NONE, SSL_VERIFY_PEER or
    SSL_VERIFY_PEER|SSL_VERIFY_FAIL_IF_NO_PEER_CERT and leaves the state
    alone: never SSL_VERIFY_CLIENT_ONCE, and never
    SSL_VERIFY_FAIL_IF_NO_PEER_CERT without SSL_VERIFY_PEER. *)
Theorem getVerificationMode_range (w : World) :
  match getVerificationMode w with
  | (Returns mode, w') =>
      w' = w /\ verifyPeer_ (self w) <> USE_CTX /\
      (mode = SSL_VERIFY_NONE \/ mode = SSL_VERIFY_PEER \/
       mode = Z.lor SSL_VERIFY_PEER SSL_VERIFY_FAIL_IF_NO_PEER_CERT)
  | (Throws _, _) => False
  | (CheckFailed _, w') => w' = w /\ verifyPeer_ (self w) = USE_CTX
  end.
Proof.
  unfold getVerificationMode, bind, gets.
  destruct (verifyPeer_ (self w)), (verifyClient_ (self w)), (verifyServer_ (self w));
    simpl; repeat split; try discriminate; auto.
Qed.

(** X5: the legacy option cannot switch verification off.  After
    [setVerificationOption(NO_VERIFY)], [needsPeerVerification()] is still
    true whenever the client option is not DO_NOT_REQUEST or the server
    option is IF_PRESENTED, and false otherwise. *)
Theorem NO_VERIFY_leaves_other_options (w : World) :
  exists w1 needs,
    setVerificationOption_peer NO_VERIFY w = (Returns tt, w1) /\
    needsPeerVerification w1 = (Returns needs, w1) /\
    (needs = true <->
     verifyClient_ (self w) <> DO_NOT_REQUEST \/
     verifyServer_ (self w) = SERVER_IF_PRESENTED).
Proof.
  eexists. eexists. split; [reflexivity|].
  unfold needsPeerVerification, getVerificationMode, bind, gets, ret. simpl.
  split; [reflexivity|].
  destruct (verifyClient_ (self w)), (verifyServer_ (self w)); simpl;
    split; intros; try discriminate; try reflexivity; auto;
    match goal with Hor : _ \/ _ |- _ => destruct Hor; congruence end.
Qed.

End MoreVerification.

(** ** Construction, continued *)

Section NewContext.
Context `{OpenSSL}.

(** The world [SSLContext(SSLVersion)] leaves when it returns. *)
Lemma SSLContext_version_run (version : SSLVersion) (w w0 : World) :
  SSLContext_version version w = (Returns tt, w0) ->
  version <> TLSv1_3 /\
  exists c s,
    SSL_CTX_new = Some (c, s) /\
    verifyPeer_ (self w0) = NO_VERIFY /\
    verifyClient_ (self w0) = DO_NOT_REQUEST /\
    verifyServer_ (self w0) = IGNORE_VERIFY_RESULT /\
    advertisedNextProtocols_ (self w0) = [] /\
    advertisedNextProtocolWeights_ (self w0) = [] /\
    alpn_select_cb (ctx_ (self w0)) = None /\
    alpn_protos (ctx_ (self w0)) = [] /\
    cert (ctx_ (self w0)) = c /\
    cert_store (ctx_ (self w0)) = s /\
    hd_error (calls (ctx_ (self w0))) = Some (Call_set_max_proto_version TLS1_2_VERSION).
Proof.
  unfold SSLContext_version, configureProtocolVersion, setupCtx, getErrors, getErrors_errno.
  destruct SSL_CTX_new as [[c s]|]; destruct version; run; intros Hret;
    inversion Hret; subst; (split; [discriminate|]); exists c, s; simpl;
    repeat (split; [reflexivity|]); reflexivity.
Qed.

(** X6: what a new context is like.  [SSLContext(SSLVersion)] returns
    exactly when the version is not TLSv1_3 and [SSL_CTX_new] gave a
    context, [SSLContext(SSL_CTX* ctx)] exactly when the reference count
    could be raised.  A context either constructor returns verifies no peer
    (mode SSL_VERIFY_NONE, [needsPeerVerification()] false) and advertises
    no protocol; the one built from a version also has nothing registered
    with the library for protocol negotiation, and TLS 1.2 is the first
    thing it set: the maximum version. *)
Theorem new_context_defaults (w : World) :
  (forall version,
     (exists w0, SSLContext_version version w = (Returns tt, w0)) <->
     version <> TLSv1_3 /\ SSL_CTX_new <> None) /\
  (forall ctx,
     (exists w0, SSLContext_ctx ctx w = (Returns tt, w0)) <->
     SSL_CTX_up_ref_ok = true) /\
  (forall version w0,
     SSLContext_version version w = (Returns tt, w0) ->
     getVerificationMode w0 = (Returns SSL_VERIFY_NONE, w0) /\
     needsPeerVerification w0 = (Returns false, w0) /\
     getAdvertisedNextProtocols w0 = (Returns ""%string, w0) /\
     alpn_disabled w0 /\
     hd_error (calls (ctx_ (self w0)))
       = Some (Call_set_max_proto_version TLS1_2_VERSION)) /\
  (forall ctx w0,
     SSLContext_ctx ctx w = (Returns tt, w0) ->
     getVerificationMode w0 = (Returns SSL_VERIFY_NONE, w0) /\
     needsPeerVerification w0 = (Returns false, w0) /\
     getAdvertisedNextProtocols w0 = (Returns ""%string, w0)).
Proof.
  assert (Hmode : forall w0,
    verifyPeer_ (self w0) = NO_VERIFY ->
    verifyClient_ (self w0) = DO_NOT_REQUEST ->
    verifyServer_ (self w0) = IGNORE_VERIFY_RESULT ->
    getVerificationMode w0 = (Returns SSL_VERIFY_NONE, w0) /\
    needsPeerVerification w0 = (Returns false, w0)).
  { intros w0 Hpeer Hclient Hserver.
    unfold needsPeerVerification, getVerificationMode, bind, gets, ret.
    rewrite Hpeer, Hclient, Hserver. split; reflexivity. }
  split; [|split; [|split]].
  - intros version. split.
    + intros [w0 Hbuilt]. apply SSLContext_version_run in Hbuilt.
      destruct Hbuilt as (Hversion & c & s & Hnew & _).
      split; [exact Hversion | congruence].
    + intros [Hversion Hnew]. unfold SSLContext_version.
      destruct SSL_CTX_new as [[c s]|]; [|congruence].
      destruct version; try congruence; eexists; reflexivity.
  - intros ctx. unfold SSLContext_ctx, setupCtx.
    destruct SSL_CTX_up_ref_ok; run; split.
    + reflexivity.
    + intros _. eexists. reflexivity.
    + intros [w0 Hbuilt]. discriminate Hbuilt.
    + discriminate.
  - intros version w0 Hbuilt. apply SSLContext_version_run in Hbuilt.
    destruct Hbuilt as (_ & c & s & _ & Hpeer & Hclient & Hserver & Hnone & Hweights
                        & Hcb & Hprotos & _ & _ & Hfirst).
    destruct (Hmode w0 Hpeer Hclient Hserver) as [Hget Hneeds].
    split; [exact Hget|]. split; [exact Hneeds|].
    split; [apply getAdvertisedNextProtocols_disabled, Hnone|].
    split; [|exact Hfirst]. repeat split; assumption.
  - intros ctx w0. unfold SSLContext_ctx, setupCtx.
    destruct SSL_CTX_up_ref_ok; run; intros Hbuilt; inversion Hbuilt; subst.
    split; [reflexivity|]. split; reflexivity.
Qed.

End NewContext.

(** ** Buffers, error text and the password callback *)

Section Buffers.
Context `{OpenSSL}.

(** What [BIO_write] is asked to write and what the test after it says,
    for a buffer that is empty or has 2^31 bytes or more. *)
Lemma BIO_write_refused (data : list ascii) :
  ~ (0 < Z.of_nat (length data) < 2 ^ 31) ->
  let (written, bio) := BIO_write [] data (to_int (Z.of_nat (length data))) in
  ((written <=? 0) || negb (to_unsigned written =? Z.of_nat (length data))) = true.
Proof.
  intros Hsize. unfold BIO_write.
  destruct (Z.ltb_spec 0 (to_int (Z.of_nat (length data)))) as [Hpos|Hneg].
  - apply orb_true_iff. right. apply negb_true_iff, Z.eqb_neq. intros Heq.
    assert (Hint : to_int (Z.of_nat (length data)) < 2 ^ 31).
    { unfold to_int.
      pose proof (Z.mod_pos_bound (Z.of_nat (length data) + 2 ^ 31) (2 ^ 32)). lia. }
    rewrite to_unsigned_small in Heq by lia. lia.
  - apply orb_true_iff. left. reflexivity.
Qed.

(** X7: the size guard of the two loaders that take a buffer.  A buffer
    that is empty, or that has 2^31 bytes or more, is refused before
    anything is read from it: the call throws the runtime error that
    starts with "BIO_write: ", the error queue is emptied and nothing else
    changes; in particular the context keeps the certificate and key it
    had. *)
Theorem buffer_loaders_size_guard (data : list ascii) (w : World) :
  BIO_new_ok = true ->
  ~ (0 < Z.of_nat (length data) < 2 ^ 31) ->
  exists errors,
    loadCertificateFromBufferPEM (Some data) w =
      (Throws (runtime_error ("BIO_write: " ++ errors)%string),
       with_ERR_queue (fun _ => []) w) /\
    loadPrivateKeyFromBufferPEM (Some data) w =
      (Throws (runtime_error ("BIO_write: " ++ errors)%string),
       with_ERR_queue (fun _ => []) w).
Proof.
  intros Hbio Hsize. pose proof (BIO_write_refused data Hsize) as Hrefused.
  destruct (getErrors_run w) as [errors Herrors]. exists errors.
  unfold loadCertificateFromBufferPEM, loadPrivateKeyFromBufferPEM.
  rewrite Hbio. cbn [negb].
  destruct (BIO_write [] data (to_int (Z.of_nat (length data)))) as [written bio].
  rewrite Hrefused. rewrite (bind_returns _ _ _ _ _ Herrors). split; reflexivity.
Qed.

Lemma string_empty_spec (s : string) : string_empty s = true <-> s = ""%string.
Proof. destruct s; simpl; split; congruence. Qed.

Lemma string_app_empty (s t : string) : (s ++ t)%string = ""%string -> s = ""%string.
Proof. destruct s; [reflexivity | discriminate]. Qed.

Lemma string_app_assoc (s t u : string) : ((s ++ t) ++ u)%string = (s ++ t ++ u)%string.
Proof.
  induction s as [|c s IH]; [reflexivity|].
  change (String c ((s ++ t) ++ u) = String c (s ++ t ++ u))%string. f_equal. exact IH.
Qed.

(** The loop of [getErrors], started with text already there: the reasons
    still in the queue follow, each behind the separator. *)
Lemma getErrors_loop_joined (queue : list positive) (errors : string) :
  errors <> ""%string ->
  Forall (fun code => reason_of code <> ""%string) queue ->
  getErrors_loop queue errors
    = fold_left (fun text code => (text ++ "; " ++ reason_of code)%string) queue errors.
Proof.
  intros Herrors Hreasons. revert errors Herrors.
  induction Hreasons as [|code queue Hcode _ IH]; intros errors Herrors; [reflexivity|].
  cbn [getErrors_loop fold_left].
  destruct (string_empty errors) eqn:Hempty.
  { apply string_empty_spec in Hempty. contradiction. }
  fold (reason_of code). rewrite string_app_assoc. apply IH.
  intros Hnil. apply string_app_empty in Hnil. contradiction.
Qed.

Lemma concat_joined (reasons : list string) (first text : string) :
  fold_left (fun text reason => (text ++ "; " ++ reason)%string) reasons (text ++ first)%string
    = (text ++ String.concat "; " (first :: reasons))%string.
Proof.
  revert first text. induction reasons as [|reason reasons IH]; intros first text.
  - reflexivity.
  - cbn [fold_left].
    rewrite <- (string_app_assoc (text ++ first)%string "; "%string reason).
    rewrite IH.
    change (String.concat "; " (first :: reason :: reasons))
      with (first ++ "; " ++ String.concat "; " (reason :: reasons))%string.
    rewrite !string_app_assoc. reflexivity.
Qed.

Lemma fold_reasons (queue : list positive) (text : string) :
  fold_left (fun text c => (text ++ "; " ++ reason_of c)%string) queue text
    = fold_left (fun text reason => (text ++ "; " ++ reason)%string)
        (map reason_of queue) text.
Proof.
  revert text. induction queue as [|c queue IH]; intros text; [reflexivity|].
  cbn [fold_left map]. apply IH.
Qed.

(** X8: the text [getErrors] gives.  The call returns, empties the error
    queue of the library and changes nothing else.  Its text is never
    empty: with no error queued it is "error code: " and the number in
    [errno]; with errors queued whose reasons are not empty it is these
    reasons, oldest first, with "; " between them, where a code the
    library has no reason for reads "SSL error # " and the code in
    hexadecimal. *)
Theorem getErrors_text (w : World) :
  exists errors,
    getErrors w = (Returns errors, with_ERR_queue (fun _ => []) w) /\
    errors <> ""%string /\
    (ERR_queue w = [] -> errors = ("error code: " ++ to_string (errno w))%string) /\
    (ERR_queue w <> [] ->
     Forall (fun code => reason_of code <> ""%string) (ERR_queue w) ->
     errors = String.concat "; " (map reason_of (ERR_queue w))) /\
    (forall code, ERR_reason_error_string code = None ->
       reason_of code = ("SSL error # " ++ format_08lX (Zpos code))%string).
Proof.
  unfold getErrors, getErrors_errno, bind, gets, ret, ERR_clear_error, modify.
  eexists. split; [reflexivity|].
  split; [|split; [|split]].
  - destruct (string_empty (getErrors_loop (ERR_queue w) "")) eqn:Hempty.
    + discriminate.
    + intros Hnil. rewrite Hnil in Hempty. discriminate Hempty.
  - intros ->. reflexivity.
  - intros Hqueue Hreasons.
    destruct (ERR_queue w) as [|code queue]; [congruence|].
    inversion Hreasons as [|? ? Hcode Hrest]; subst.
    cbn [getErrors_loop string_empty]. fold (reason_of code).
    change ("" ++ reason_of code)%string with (reason_of code).
    rewrite (getErrors_loop_joined queue (reason_of code) Hcode Hrest).
    assert (Hjoined :
      fold_left (fun text c => (text ++ "; " ++ reason_of c)%string) queue (reason_of code)
      = String.concat "; " (map reason_of (code :: queue))).
    { rewrite fold_reasons.
      exact (concat_joined (map reason_of queue) (reason_of code) ""). }
    rewrite Hjoined.
    destruct (string_empty (String.concat "; " (map reason_of (code :: queue)))) eqn:Hempty;
      [|reflexivity].
    apply string_empty_spec in Hempty. cbn [map] in Hempty.
    destruct (map reason_of queue) as [|r rs].
    + simpl in Hempty. contradiction.
    + change (String.concat "; " (reason_of code :: r :: rs))
        with (reason_of code ++ "; " ++ String.concat "; " (r :: rs))%string in Hempty.
      apply string_app_empty in Hempty. contradiction.
  - intros code Hnone. unfold reason_of. rewrite Hnone. reflexivity.
Qed.

End Buffers.

Lemma buffer_loaders_size_guard_witness :
  exists errors,
    @loadCertificateFromBufferPEM SmallSSL (Some []) small_world =
      (Throws (runtime_error ("BIO_write: " ++ errors)%string), small_world).
Proof.
  destruct (@buffer_loaders_size_guard SmallSSL [] small_world) as (errors & Hcert & _).
  - reflexivity.
  - simpl. lia.
  - exists errors. exact Hcert.
Defined.

(** X9: the password callback stays inside the buffer.  Given a buffer of
    [size] bytes, [size] an [int] that is not negative, the callback
    returns the smaller of [size] and the length of the password, writes
    that many bytes of the password to the start of the buffer and leaves
    the rest and the length of the buffer as they were.  With no context
    or no collector it returns 0 and writes nothing. *)
Theorem passwordCallback_in_bounds (password : list ascii) (size : Z)
    (collector : PasswordCollector) :
  0 <= size < 2 ^ 31 ->
  Z.of_nat (length password) = size ->
  let userPassword := getPassword collector size in
  let written := Z.min (Z.of_nat (length userPassword)) size in
  fst (passwordCallback password size (Some (Some collector))) = written /\
  length (snd (passwordCallback password size (Some (Some collector)))) = length password /\
  take (Z.to_nat written) (snd (passwordCallback password size (Some (Some collector))))
    = take (Z.to_nat written) userPassword /\
  drop (Z.to_nat written) (snd (passwordCallback password size (Some (Some collector))))
    = drop (Z.to_nat written) password /\
  passwordCallback password size None = (0, password) /\
  passwordCallback password size (Some None) = (0, password).
Proof.
  intros Hsize Hbuffer userPassword written. unfold passwordCallback.
  fold userPassword. unfold to_size_t. rewrite (Z.mod_small size) by lia.
  fold written. cbn [fst snd].
  assert (Hwritten : 0 <= written <= Z.of_nat (length userPassword) /\ written <= size)
    by (unfold written; lia).
  assert (Htake : length (take (Z.to_nat written) userPassword) = Z.to_nat written).
  { rewrite length_take. lia. }
  split; [apply to_int_small; lia|].
  split; [rewrite length_app, Htake, length_drop; lia|].
  split; [rewrite take_app_length'; [reflexivity | symmetry; exact Htake]|].
  split; [rewrite drop_app_length'; [reflexivity | symmetry; exact Htake]|].
  split; reflexivity.
Qed.

Lemma passwordCallback_in_bounds_witness :
  fst (passwordCallback (cstr "........") 8
         (Some (Some (mkPasswordCollector (fun _ => cstr "secret-and-more") "test"))))
    = 8 /\
  length (snd (passwordCallback (cstr "........") 8
         (Some (Some (mkPasswordCollector (fun _ => cstr "secret-and-more") "test")))))
    = 8%nat.
Proof.
  destruct (passwordCallback_in_bounds (cstr "........") 8
              (mkPasswordCollector (fun _ => cstr "secret-and-more") "test"))
    as (Hreturned & Hlength & _).
  - lia.
  - reflexivity.
  - split; [exact Hreturned | exact Hlength].
Defined.

(** ** Protocol negotiation, continued *)

Section Advertising.
Context `{OpenSSL}.

Lemma no_long_name_short (items : list NextProtocolsItem) (item : NextProtocolsItem) :
  ~ has_long_name items -> In item items -> Forall short (protocols item).
Proof.
  intros Hnone Hin. apply List.Forall_forall. intros proto Hproto. unfold short.
  destruct (Nat.lt_ge_cases (String.length proto) 256) as [Hlt|Hge]; [exact Hlt|].
  destruct Hnone. exists item, proto. auto.
Qed.

Lemma wire_size_nonneg (protos : list string) : 0 <= wire_size protos.
Proof.
  induction protos as [|proto protos IH]; [reflexivity|].
  cbn [wire_size fold_right]. fold (wire_size protos). lia.
Qed.

Lemma advertised_length_exact (protos : list string) (acc : Z) :
  Forall short protos ->
  0 <= acc ->
  acc + wire_size protos < 2 ^ 32 ->
  advertised_length protos acc = Some (acc + wire_size protos).
Proof.
  intros Hshort. revert acc. induction Hshort as [|proto protos Hproto _ IH];
    intros acc Hacc Hfits.
  - cbn. f_equal. lia.
  - cbn [advertised_length wire_size fold_right] in *. fold (wire_size protos) in *.
    pose proof (wire_size_nonneg protos) as Hrest. unfold short in Hproto.
    destruct (Z.leb_spec 256 (Z.of_nat (String.length proto))) as [Hlong|_]; [lia|].
    rewrite (to_unsigned_small (acc + 1)) by lia.
    rewrite (to_unsigned_small (Z.of_nat (String.length proto))) by lia.
    rewrite (to_unsigned_small (acc + 1 + Z.of_nat (String.length proto))) by lia.
    rewrite IH by lia. f_equal. lia.
Qed.

Lemma advertised_length_none (protos : list string) (acc : Z) :
  advertised_length protos acc = None ->
  exists proto, In proto protos /\ (256 <= String.length proto)%nat.
Proof.
  revert acc. induction protos as [|proto protos IH]; intros acc Hnone; [discriminate|].
  cbn [advertised_length] in Hnone.
  destruct (Z.leb_spec 256 (Z.of_nat (String.length proto))) as [Hlong|_].
  - exists proto. split; [left; reflexivity | lia].
  - destruct (IH _ Hnone) as (proto' & Hin & Hlong). exists proto'.
    split; [right; exact Hin | exact Hlong].
Qed.

Lemma list_ascii_length (s : string) :
  length (list_ascii_of_string s) = String.length s.
Proof. induction s as [|c s IH]; [reflexivity | simpl; f_equal; exact IH]. Qed.

(** The wire format of names shorter than 256 characters: each name behind
    its length. *)
Lemma wire_format_short (protos : list string) :
  Forall short protos ->
  wire_format protos
    = flat_map (fun proto => ascii_of_nat (String.length proto) :: list_ascii_of_string proto)
        protos.
Proof.
  induction 1 as [|proto protos Hproto _ IH]; [reflexivity|].
  cbn [wire_format flat_map]. unfold short in Hproto.
  rewrite (Nat.mod_small _ _ Hproto), IH.
  rewrite firstn_all2 by (rewrite list_ascii_length; lia). reflexivity.
Qed.

Lemma wire_format_length (protos : list string) :
  Forall short protos ->
  Z.of_nat (length (wire_format protos)) = wire_size protos.
Proof.
  intros Hshort. rewrite (wire_format_short protos Hshort).
  clear Hshort. induction protos as [|proto protos IH]; [reflexivity|].
  cbn [flat_map wire_size fold_right]. fold (wire_size protos).
  cbn [app length]. rewrite length_app, list_ascii_length. lia.
Qed.

Lemma kept_cons_empty (item : NextProtocolsItem) (items : list NextProtocolsItem) :
  protocols item = [] -> kept (item :: items) = kept items.
Proof.
  intros Hprotos. unfold kept. rewrite filter_cons_False; [reflexivity|].
  rewrite Hprotos. tauto.
Qed.

Lemma kept_cons_names (item : NextProtocolsItem) (items : list NextProtocolsItem) :
  protocols item <> [] -> kept (item :: items) = item :: kept items.
Proof. intros Hprotos. unfold kept. rewrite filter_cons_True; [reflexivity | exact Hprotos]. Qed.

Lemma kept_In (item : NextProtocolsItem) (items : list NextProtocolsItem) :
  In item (kept items) -> In item items /\ protocols item <> [].
Proof.
  unfold kept. intros Hin. apply list_elem_of_In, list_elem_of_filter in Hin.
  destruct Hin as [Hnames Hin]. split; [apply list_elem_of_In, Hin | exact Hnames].
Qed.

(** When the loop over the groups runs through, the context has one more
    array for every group it kept, each freshly allocated behind the
    arrays there were, and one more weight; nothing else of the context
    has changed, and no array there was has. *)
Lemma advertise_some (items : list NextProtocolsItem) (t t' : Z) (w w' : World) :
  advertise items t w = (Returns (Some t'), w') ->
  exists new,
    advertisedNextProtocols_ (self w') = advertisedNextProtocols_ (self w) ++ new /\
    advertisedNextProtocolWeights_ (self w')
      = advertisedNextProtocolWeights_ (self w) ++ map weight (kept items) /\
    nextProtocolDistribution_ (self w') = nextProtocolDistribution_ (self w) /\
    map adv_protocols new = seq (S (brk (heap w))) (length (kept items)) /\
    brk (heap w') = (brk (heap w) + length (kept items))%nat /\
    (forall p, (p <= brk (heap w))%nat -> cells (heap w') !! p = cells (heap w) !! p) /\
    (forall p, In p (map adv_protocols new) -> is_Some (cells (heap w') !! p)) /\
    (~ has_long_name items -> fits_unsigned items ->
     Forall2 (advertises w') new (kept items)).
Proof.
  revert t w. induction items as [|item items IH]; intros t w Hrun.
  - inversion Hrun; subst. exists []. rewrite !app_nil_r.
    repeat split; try reflexivity.
    + cbn. lia.
    + intros p [].
    + intros _ _. constructor.
  - cbn [advertise] in Hrun.
    destruct (protocols item) as [|proto protos] eqn:Hprotos.
    + destruct (IH t w Hrun) as (new & Hadv & Hweights & Hdist & Hptrs & Hbrk & Hold
                                 & Hlive & Hwire).
      exists new. rewrite (kept_cons_empty item items Hprotos).
      repeat split; try assumption.
      intros Hshort Hfits. apply Hwire.
      * intros (item' & proto' & Hin & Hproto & Hlong). apply Hshort.
        exists item', proto'. split; [right; exact Hin | auto].
      * intros item' Hin. apply Hfits. rewrite (kept_cons_empty item items Hprotos).
        exact Hin.
    + assert (Hnames : protocols item <> []) by (rewrite Hprotos; discriminate).
      rewrite <- Hprotos in Hrun.
      destruct (advertised_length (protocols item) 0) as [len|] eqn:Hlen.
      * unfold new_array in Hrun. unfold bind at 1 2 3 in Hrun.
        unfold gets at 1 in Hrun. unfold modify at 1 in Hrun.
        unfold ret at 1 in Hrun. cbn [Nat.eqb] in Hrun.
        unfold bind at 1 2 in Hrun. unfold write_array at 1 in Hrun.
        unfold modify at 1 2 in Hrun.
        match type of Hrun with advertise items ?t1 ?w1 = _ =>
          destruct (IH t1 w1 Hrun) as (new & Hadv & Hweights & Hdist & Hptrs & Hbrk
                                       & Hold & Hlive & Hwire)
        end.
        cbn in Hadv, Hweights, Hdist, Hptrs, Hbrk.
        assert (Hcell : cells (heap w') !! S (brk (heap w))
                        = Some (wire_format (protocols item)
                                ++ drop (length (wire_format (protocols item)))
                                     (replicate (Z.to_nat len) NUL))).
        { rewrite Hold by (cbn; lia). cbn.
          rewrite lookup_alter_eq, lookup_insert_eq. reflexivity. }
        exists (mkAdvertised (S (brk (heap w))) len :: new).
        rewrite (kept_cons_names item items Hnames).
        split; [rewrite Hadv, <- app_assoc; reflexivity|].
        split; [rewrite Hweights, <- app_assoc; reflexivity|].
        split; [exact Hdist|].
        split; [cbn [map seq length adv_protocols]; f_equal; exact Hptrs|].
        split; [rewrite Hbrk; cbn [length]; lia|].
        split.
        { intros p Hp. rewrite Hold by (cbn; lia). cbn.
          rewrite lookup_alter_ne, lookup_insert_ne by lia. reflexivity. }
        split.
        { intros p [<- | Hin]; [|exact (Hlive p Hin)].
          cbn [adv_protocols]. rewrite Hcell. eauto. }
        intros Hshort Hfits.
        assert (Hitem : Forall short (protocols item)).
        { apply (no_long_name_short (item :: items)); [exact Hshort | left; reflexivity]. }
        assert (Hsize : wire_size (protocols item) < 2 ^ 32).
        { apply Hfits. rewrite (kept_cons_names item items Hnames). left. reflexivity. }
        rewrite (advertised_length_exact (protocols item) 0 Hitem) in Hlen by lia.
        inversion Hlen as [Hlen']. rewrite Z.add_0_l in Hlen'. subst len.
        constructor.
        -- unfold advertises. cbn [adv_protocols adv_length]. rewrite Hcell.
           rewrite (wire_format_length _ Hitem). split; [|reflexivity].
           f_equal. rewrite drop_ge; [apply app_nil_r|].
           rewrite length_replicate.
           pose proof (wire_format_length _ Hitem). lia.
        -- apply Hwire.
           ++ intros (item' & proto' & Hin & Hproto & Hlong). apply Hshort.
              exists item', proto'. split; [right; exact Hin | auto].
           ++ intros item' Hin. apply Hfits.
              rewrite (kept_cons_names item items Hnames). right. exact Hin.
      * rewrite (bind_returns _ _ _ _ _ (deleteNextProtocolsStrings_run w)) in Hrun.
        discriminate Hrun.
Qed.

(** The loop gives up only on a name of 256 characters or more. *)
Lemma advertise_none (items : list NextProtocolsItem) (t : Z) (w w' : World) :
  advertise items t w = (Returns None, w') -> has_long_name items.
Proof.
  revert t w. induction items as [|item items IH]; intros t w Hrun; [discriminate|].
  cbn [advertise] in Hrun.
  assert (Hlater : has_long_name items -> has_long_name (item :: items)).
  { intros (item' & proto' & Hin & Hproto & Hlong).
    exists item', proto'. split; [right; exact Hin | auto]. }
  destruct (protocols item) as [|proto protos] eqn:Hprotos.
  - apply Hlater. exact (IH _ _ Hrun).
  - rewrite <- Hprotos in Hrun.
    destruct (advertised_length (protocols item) 0) as [len|] eqn:Hlen.
    + unfold new_array in Hrun. unfold bind at 1 2 3 in Hrun.
      unfold gets at 1 in Hrun. unfold modify at 1 in Hrun.
      unfold ret at 1 in Hrun. cbn [Nat.eqb] in Hrun.
      unfold bind at 1 2 in Hrun. unfold write_array at 1 in Hrun.
      unfold modify at 1 2 in Hrun.
      apply Hlater. exact (IH _ _ Hrun).
    + destruct (advertised_length_none _ _ Hlen) as (proto' & Hin & Hlong).
      exists item, proto'. split; [left; reflexivity | auto].
Qed.

Lemma string_of_list_ascii_app (s t : list ascii) :
  string_of_list_ascii (s ++ t) = (string_of_list_ascii s ++ string_of_list_ascii t)%string.
Proof.
  induction s as [|c s IH]; [reflexivity|].
  change (String c (string_of_list_ascii (s ++ t))
          = String c (string_of_list_ascii s ++ string_of_list_ascii t)%string).
  f_equal. exact IH.
Qed.

(** The loop of [getAdvertisedNextProtocols]: standing on the length byte
    of a name, it puts a comma there and goes on to the next one. *)
Lemma commas_joined (rest : list string) (pre : list ascii) (fuel : nat) :
  Forall short rest ->
  (length rest <= fuel)%nat ->
  commas fuel
    (pre ++ flat_map (fun proto => ascii_of_nat (String.length proto)
                                     :: list_ascii_of_string proto) rest)
    (length pre)
  = pre ++ flat_map (fun proto => ","%char :: list_ascii_of_string proto) rest.
Proof.
  intros Hshort. revert pre fuel.
  induction Hshort as [|proto rest Hproto _ IH]; intros pre fuel Hfuel.
  - cbn [flat_map]. rewrite app_nil_r. destruct fuel as [|fuel]; [reflexivity|].
    cbn [commas]. rewrite Nat.ltb_irrefl. reflexivity.
  - destruct fuel as [|fuel]; [cbn [length] in Hfuel; lia|].
    cbn [commas flat_map].
    assert (Hin : (length pre <? length (pre ++
              (ascii_of_nat (String.length proto) :: list_ascii_of_string proto) ++
              flat_map (fun proto => ascii_of_nat (String.length proto)
                                       :: list_ascii_of_string proto) rest))%nat = true).
    { apply Nat.ltb_lt. rewrite length_app. cbn [app length]. lia. }
    rewrite Hin, char_at_app. cbn [app hd].
    unfold short in Hproto. rewrite nat_ascii_embedding by exact Hproto.
    replace (length pre) with (length pre + 0)%nat at 1 by lia.
    rewrite insert_app_r. cbn [insert list_insert].
    specialize (IH (pre ++ ","%char :: list_ascii_of_string proto) fuel).
    rewrite <- !app_assoc in IH. cbn [app] in IH.
    replace (length (pre ++ ","%char :: list_ascii_of_string proto))
      with (length pre + (String.length proto + 1))%nat in IH
      by (rewrite length_app; cbn [length]; rewrite list_ascii_length; lia).
    apply IH. cbn [length] in Hfuel. lia.
Qed.

Lemma concat_commas (proto : string) (rest : list string) :
  string_of_list_ascii
    (list_ascii_of_string proto
     ++ flat_map (fun proto => ","%char :: list_ascii_of_string proto) rest)
  = String.concat "," (proto :: rest).
Proof.
  revert proto. induction rest as [|next rest IH]; intros proto.
  - cbn [flat_map]. rewrite app_nil_r. apply string_of_list_ascii_of_string.
  - cbn [flat_map]. rewrite string_of_list_ascii_app, string_of_list_ascii_of_string.
    change (String.concat "," (proto :: next :: rest))
      with (proto ++ "," ++ String.concat "," (next :: rest))%string.
    f_equal.
    change ((","%char :: list_ascii_of_string next)
            ++ flat_map (fun proto => ","%char :: list_ascii_of_string proto) rest)
      with (","%char :: (list_ascii_of_string next
            ++ flat_map (fun proto => ","%char :: list_ascii_of_string proto) rest)).
    change (string_of_list_ascii (","%char :: ?l)) with (String "," (string_of_list_ascii l)).
    cbn [string_of_list_ascii]. rewrite IH. reflexivity.
Qed.

(** Reading back what a context advertises first. *)
Lemma getAdvertisedNextProtocols_reads (w : World) (a : AdvertisedNextProtocolsItem)
    (others : list AdvertisedNextProtocolsItem) (protos : list string) :
  advertisedNextProtocols_ (self w) = a :: others ->
  cells (heap w) !! adv_protocols a = Some (wire_format protos) ->
  adv_length a = Z.of_nat (length (wire_format protos)) ->
  protos <> [] ->
  Forall short protos ->
  wire_size protos < 2 ^ 32 ->
  getAdvertisedNextProtocols w = (Returns (String.concat "," protos), w).
Proof.
  intros Hadv Hcell Hlength Hnames Hshort Hsize.
  unfold getAdvertisedNextProtocols, read_array, bind, gets, ret.
  rewrite Hadv, Hcell, Hlength. cbn [default from_option id].
  rewrite Nat2Z.id, firstn_all.
  pose proof (wire_format_length protos Hshort) as Hlen.
  rewrite (wire_format_short protos Hshort) in *.
  destruct protos as [|proto rest]; [congruence|].
  inversion Hshort as [|? ? Hproto Hrest]; subst.
  cbn [flat_map app] in *. cbn [length] in Hlen |- *.
  rewrite to_unsigned_small by lia.
  replace (Z.to_nat (Z.of_nat (S (length (list_ascii_of_string proto ++
             flat_map (fun proto => ascii_of_nat (String.length proto)
                                      :: list_ascii_of_string proto) rest))) - 1))
    with (length (list_ascii_of_string proto ++
             flat_map (fun proto => ascii_of_nat (String.length proto)
                                      :: list_ascii_of_string proto) rest)) by lia.
  cbn [drop]. rewrite firstn_all.
  unfold char_at. cbn [nth]. unfold short in Hproto.
  rewrite nat_ascii_embedding by exact Hproto.
  rewrite <- (list_ascii_length proto). rewrite !drop_0.
  rewrite commas_joined.
  - rewrite concat_commas. reflexivity.
  - exact Hrest.
  - rewrite length_app.
    assert (Hcount : (length rest <= length (flat_map
              (fun proto => ascii_of_nat (String.length proto)
                              :: list_ascii_of_string proto) rest))%nat).
    { clear. induction rest as [|r rest IH]; [reflexivity|].
      cbn [flat_map length app]. rewrite length_app. lia. }
    lia.
Qed.

(** What [setRandomizedAdvertisedNextProtocols] does when it advertises. *)
Lemma setRandomizedAdvertisedNextProtocols_run (items : list NextProtocolsItem) (w : World) :
  ~ has_long_name items ->
  fits_unsigned items ->
  to_int (total_weight_of items) <> 0 ->
  exists first rest w',
    kept items = first :: rest /\
    setRandomizedAdvertisedNextProtocols items w
      = (Returns (alpn_memdup_ok (Some (wire_format (protocols first)))), w') /\
    Forall2 (advertises w') (advertisedNextProtocols_ (self w')) (kept items) /\
    advertisedNextProtocolWeights_ (self w') = map weight (kept items) /\
    nextProtocolDistribution_ (self w') = map weight (kept items) /\
    alpn_select_cb (ctx_ (self w')) = Some alpnSelectCallback /\
    alpn_protos (ctx_ (self w'))
      = (if alpn_memdup_ok (Some (wire_format (protocols first)))
         then wire_format (protocols first) else []) /\
    map adv_protocols (advertisedNextProtocols_ (self w'))
      = seq (S (brk (heap w))) (length (kept items)) /\
    getAdvertisedNextProtocols w' = (Returns (String.concat "," (protocols first)), w').
Proof.
  intros Hshort Hfits Htotal.
  unfold setRandomizedAdvertisedNextProtocols.
  rewrite (bind_returns _ _ _ _ _ (unsetNextProtocols_run w)).
  destruct (advertise_run items 0 (protocols_unset w))
    as (r & w1 & Hrun & Hctx & _ & Hr).
  destruct r as [t|]; [|destruct Hshort; exact (advertise_none _ _ _ _ Hrun)].
  destruct Hr as [_ Ht]. specialize (Ht eq_refl). rewrite Z.add_0_l in Ht. subst t.
  destruct (advertise_some _ _ _ _ _ Hrun)
    as (new & Hadv & Hweights & Hdist & Hptrs & Hbrk & _ & _ & Hwire).
  specialize (Hwire Hshort Hfits). cbn in Hadv, Hweights, Hptrs.
  destruct items as [|item items].
  { destruct Htotal. reflexivity. }
  rewrite (bind_returns _ _ _ _ _ Hrun).
  destruct (Z.eqb_spec (to_int (total_weight_of (item :: items))) 0) as [|_];
    [contradiction|].
  destruct (kept (item :: items)) as [|first rest] eqn:Hkept.
  { destruct Htotal. unfold total_weight_of. rewrite Hkept. reflexivity. }
  destruct new as [|a new']; [inversion Hwire|].
  apply Forall2_cons_1 in Hwire. destruct Hwire as [[Hcell Hlength] Hrest].
  assert (Hnames : Forall short (protocols first) /\ protocols first <> []
                   /\ wire_size (protocols first) < 2 ^ 32).
  { assert (Hin : In first (kept (item :: items))) by (rewrite Hkept; left; reflexivity).
    destruct (kept_In _ _ Hin) as [Hin' Hne].
    split; [exact (no_long_name_short _ _ Hshort Hin')|].
    split; [exact Hne | apply Hfits, Hin]. }
  destruct Hnames as (Hfirst_short & Hfirst_names & Hfirst_size).
  exists first, rest.
  unfold SSL_CTX_set_alpn_select_cb, first_advertised, read_array,
    SSL_CTX_set_alpn_protos, ERR_put_errors, bind, gets, modify, ret.
  cbn [self heap with_self with_ctx_ set_nextProtocolDistribution_ set_alpn_select_cb
       advertisedNextProtocols_ fst snd].
  rewrite Hadv. cbn [nth]. rewrite Hcell, Hlength. cbn [default from_option id].
  rewrite Nat2Z.id, firstn_all.
  rewrite <- Hadv in Hptrs.
  destruct (alpn_memdup_ok (Some (wire_format (protocols first)))) eqn:Hdup;
    (eexists; split; [reflexivity|]; split; [reflexivity|]);
    (split; [match goal with |- Forall2 _ ?l _ =>
               change l with (advertisedNextProtocols_ (self w1)) end;
             rewrite Hadv; constructor; [exact (conj Hcell Hlength) | exact Hrest]|]);
    (split; [exact Hweights|]); (split; [exact Hweights|]); (split; [reflexivity|]);
    (split; [reflexivity|]); (split; [exact Hptrs|]);
    apply (getAdvertisedNextProtocols_reads _ a new' (protocols first));
    [exact Hadv | exact Hcell | exact Hlength | exact Hfirst_names | exact Hfirst_short
    | exact Hfirst_size
    | exact Hadv | exact Hcell | exact Hlength | exact Hfirst_names | exact Hfirst_short
    | exact Hfirst_size].
Qed.

(** X10: what a successful [setRandomizedAdvertisedNextProtocols] leaves.
    Given groups none of whose names has 256 characters or more, each
    fitting a buffer with an [unsigned] length, and with weights that do
    not sum to zero, the call returns what the library says to taking the
    list (true when [SSL_CTX_set_alpn_protos] could copy it).  Afterwards
    the context holds one array per group with a name, in the order of
    the groups and freshly allocated, with the names of the group in wire
    format; weights and distribution are those of these groups; the
    selection callback is registered; the library holds the wire format of
    the first such group, or nothing when it could not copy it; and
    [getAdvertisedNextProtocols()] gives the names of the first group,
    joined by commas. *)
Theorem setRandomizedAdvertisedNextProtocols_advertises
    (items : list NextProtocolsItem) (w : World) :
  ~ has_long_name items ->
  fits_unsigned items ->
  to_int (total_weight_of items) <> 0 ->
  exists first rest w',
    kept items = first :: rest /\
    setRandomizedAdvertisedNextProtocols items w
      = (Returns (alpn_memdup_ok (Some (wire_format (protocols first)))), w') /\
    Forall2 (advertises w') (advertisedNextProtocols_ (self w')) (kept items) /\
    advertisedNextProtocolWeights_ (self w') = map weight (kept items) /\
    nextProtocolDistribution_ (self w') = map weight (kept items) /\
    alpn_select_cb (ctx_ (self w')) = Some alpnSelectCallback /\
    alpn_protos (ctx_ (self w'))
      = (if alpn_memdup_ok (Some (wire_format (protocols first)))
         then wire_format (protocols first) else []) /\
    map adv_protocols (advertisedNextProtocols_ (self w'))
      = seq (S (brk (heap w))) (length (kept items)) /\
    getAdvertisedNextProtocols w' = (Returns (String.concat "," (protocols first)), w').
Proof. apply setRandomizedAdvertisedNextProtocols_run. Qed.

(** X11: protocols set are protocols read back.  For a list of names that
    is not empty, each name shorter than 256 characters,
    [setAdvertisedNextProtocols] returns what the library says to taking
    the list, the library then holds the names in wire format (when it
    could copy them), and [getAdvertisedNextProtocols()] returns the names
    in their order, joined by commas. *)
Theorem setAdvertisedNextProtocols_round_trip (protos : list string) (w : World) :
  protos <> [] ->
  Forall short protos ->
  wire_size protos < 2 ^ 32 ->
  exists w',
    setAdvertisedNextProtocols protos w
      = (Returns (alpn_memdup_ok (Some (wire_format protos))), w') /\
    alpn_protos (ctx_ (self w'))
      = (if alpn_memdup_ok (Some (wire_format protos)) then wire_format protos else []) /\
    getAdvertisedNextProtocols w' = (Returns (String.concat "," protos), w').
Proof.
  intros Hnames Hshort Hsize.
  assert (Hkept : kept [mkNextProtocolsItem 1 protos] = [mkNextProtocolsItem 1 protos]).
  { apply kept_cons_names. exact Hnames. }
  destruct (setRandomizedAdvertisedNextProtocols_run [mkNextProtocolsItem 1 protos] w)
    as (first & rest & w' & Hfirst & Hrun & _ & _ & _ & _ & Hprotos & _ & Hget).
  - intros (item & proto & [<- | []] & Hproto & Hlong).
    rewrite List.Forall_forall in Hshort. specialize (Hshort proto Hproto).
    unfold short in Hshort. lia.
  - intros item Hin. rewrite Hkept in Hin. destruct Hin as [<- | []]. exact Hsize.
  - unfold total_weight_of. rewrite Hkept. discriminate.
  - rewrite Hkept in Hfirst. inversion Hfirst; subst first rest.
    exists w'. split; [exact Hrun|]. split; [exact Hprotos | exact Hget].
Qed.


End Advertising.

Lemma setRandomizedAdvertisedNextProtocols_advertises_witness :
  exists w',
    @setRandomizedAdvertisedNextProtocols SmallSSL
      [mkNextProtocolsItem 0 ["spdy/3"%string]; mkNextProtocolsItem 5 [];
       mkNextProtocolsItem 2 ["h2"%string; "http/1.1"%string]] small_world
      = (Returns true, w') /\
    @nextProtocolDistribution_ SmallSSL (self w') = [0; 2] /\
    @getAdvertisedNextProtocols SmallSSL w' = (Returns "spdy/3"%string, w').
Proof.
  destruct (@setRandomizedAdvertisedNextProtocols_advertises SmallSSL
              [mkNextProtocolsItem 0 ["spdy/3"%string]; mkNextProtocolsItem 5 [];
               mkNextProtocolsItem 2 ["h2"%string; "http/1.1"%string]] small_world)
    as (first & rest & w' & Hkept & Hrun & _ & _ & Hdist & _ & _ & _ & Hget).
  - intros (item & proto & Hin & Hproto & Hlong).
    repeat (destruct Hin as [<- | Hin]; [
      repeat (destruct Hproto as [<- | Hproto]; [simpl in Hlong; lia|]);
      destruct Hproto|]).
    destruct Hin.
  - intros item Hin. vm_compute in Hin.
    repeat (destruct Hin as [<- | Hin]; [reflexivity|]). destruct Hin.
  - vm_compute. discriminate.
  - vm_compute in Hkept. inversion Hkept; subst first rest.
    exists w'. split; [exact Hrun|]. split; [exact Hdist | exact Hget].
Defined.

Lemma setAdvertisedNextProtocols_round_trip_witness :
  exists w',
    @setAdvertisedNextProtocols SmallSSL ["h2"%string; "http/1.1"%string] small_world
      = (Returns true, w') /\
    @getAdvertisedNextProtocols SmallSSL w' = (Returns "h2,http/1.1"%string, w').
Proof.
  destruct (@setAdvertisedNextProtocols_round_trip SmallSSL
              ["h2"%string; "http/1.1"%string] small_world)
    as (w' & Hrun & _ & Hget).
  - discriminate.
  - repeat constructor; unfold short; simpl; lia.
  - reflexivity.
  - exists w'. split; [exact Hrun | exact Hget].
Defined.

(** ** What the calls leave alone *)

Section Keeping.
Context `{OpenSSL}.





































(** *** Protocol negotiation keeps its books *)








(** X15: the selection callback reads inside the vector of advertised
    groups.  With the books in order, and an index drawn from a
    distribution over n weights that is below n, the callback returns in
    the state it was called in.  With nothing advertised it returns
    SSL_TLSEXT_ERR_OK and a null protocol.  Otherwise the group it picks
    exists and its array is live; it returns SSL_TLSEXT_ERR_OK with the
    protocol [SSL_select_next_proto] negotiated, and when none was
    negotiated SSL_TLSEXT_ERR_NOACK if a mismatch is allowed and
    SSL_TLSEXT_ERR_ALERT_FATAL if not. *)
Theorem alpnSelectCallback_in_bounds
    (draw : list Z -> nat)
    (SSL_select_next_proto : list ascii -> list ascii -> Z * list ascii)
    (allowMismatch : bool) (inp : list ascii) (w : World) :
  (forall weights, weights <> [] -> (draw weights < length weights)%nat) ->
  alpn_consistent w ->
  exists result,
    alpnSelectCallback_body draw SSL_select_next_proto true allowMismatch inp w
      = (Returns (Some result), w) /\
    (advertisedNextProtocols_ (self w) = [] -> result = (SSL_TLSEXT_ERR_OK, None)) /\
    (advertisedNextProtocols_ (self w) <> [] ->
     exists item buffer,
       advertisedNextProtocols_ (self w) !! draw (nextProtocolDistribution_ (self w))
         = Some item /\
       cells (heap w) !! adv_protocols item = Some buffer /\
       result =
         (let (status, out) :=
            SSL_select_next_proto (take (Z.to_nat (adv_length item)) buffer) inp in
          (if status =? OPENSSL_NPN_NEGOTIATED then SSL_TLSEXT_ERR_OK
           else if allowMismatch then SSL_TLSEXT_ERR_NOACK
           else SSL_TLSEXT_ERR_ALERT_FATAL,
           Some out))).
Proof.
  intros Hdraw (Hlength & Hdist & _ & Hlive).
  unfold alpnSelectCallback_body, pickNextProtocols, read_array, CHECK, bind, gets, ret.
  cbv beta iota.
  destruct (advertisedNextProtocols_ (self w)) as [|a others] eqn:Hadv; cbv beta iota;
    rewrite ?Hadv; cbv beta iota.
  { eexists. split; [reflexivity|]. split; [reflexivity | congruence]. }
  destruct Hdist as [Hdist _]; [discriminate|].
  assert (Hweights : advertisedNextProtocolWeights_ (self w) <> []).
  { intros Hnil. rewrite Hnil in Hlength. discriminate Hlength. }
  assert (Hindex : (draw (nextProtocolDistribution_ (self w)) < length (a :: others))%nat).
  { rewrite Hdist, Hlength. apply Hdraw. exact Hweights. }
  destruct (lookup_lt_is_Some_2 (a :: others) _ Hindex) as [item Hitem].
  rewrite Hitem. cbv beta iota.
  assert (Howned : In (adv_protocols item) (owned w)).
  { unfold owned. rewrite Hadv. apply in_map.
    apply list_elem_of_In, (list_elem_of_lookup_2 _ _ _ Hitem). }
  destruct (Hlive _ Howned) as [_ [buffer Hbuffer]].
  rewrite Hbuffer. cbn [default from_option id].
  destruct (SSL_select_next_proto (take (Z.to_nat (adv_length item)) buffer) inp)
    as [status out] eqn:Hselect.
  destruct (status =? OPENSSL_NPN_NEGOTIATED) eqn:Hstatus; [|destruct allowMismatch];
    (eexists; split; [reflexivity|]; split; [discriminate|]; intros _;
     exists item, buffer; split; [reflexivity|]; split; [exact Hbuffer|];
     rewrite Hselect, Hstatus; reflexivity).
Qed.

End Keeping.



Lemma alpnSelectCallback_in_bounds_witness :
  exists result,
    @alpnSelectCallback_body SmallSSL (fun _ => O) (fun server _ => (1, server))
      true false (cstr "h2")
      (@mkWorld SmallSSL
         (@mkSSLContext SmallSSL small_ctx NO_VERIFY DO_NOT_REQUEST IGNORE_VERIFY_RESULT
            (Some false) ""%string (Some InlineRunner) [mkAdvertised 1 3] [1] [1])
         [] 0 [] (mkHeap {[1%nat := ascii_of_nat 2 :: cstr "h2"]} 1))
    = (Returns (Some result),
       @mkWorld SmallSSL
         (@mkSSLContext SmallSSL small_ctx NO_VERIFY DO_NOT_REQUEST IGNORE_VERIFY_RESULT
            (Some false) ""%string (Some InlineRunner) [mkAdvertised 1 3] [1] [1])
         [] 0 [] (mkHeap {[1%nat := ascii_of_nat 2 :: cstr "h2"]} 1)).
Proof.
  destruct (@alpnSelectCallback_in_bounds SmallSSL (fun _ => O)
              (fun server _ => (1, server)) false (cstr "h2")
              (@mkWorld SmallSSL
                 (@mkSSLContext SmallSSL small_ctx NO_VERIFY DO_NOT_REQUEST
                    IGNORE_VERIFY_RESULT (Some false) ""%string (Some InlineRunner)
                    [mkAdvertised 1 3] [1] [1])
                 [] 0 [] (mkHeap {[1%nat := ascii_of_nat 2 :: cstr "h2"]} 1)))
    as (result & Hrun & _).
  - intros [|weight weights] Hweights; [congruence | simpl; lia].
  - unfold alpn_consistent, owned. cbn.
    split; [reflexivity|]. split; [intros _; split; [reflexivity | discriminate]|].
    split; [repeat constructor; intros Hin; inversion Hin|].
    intros p [<- | []]. split; [discriminate|]. rewrite lookup_singleton_eq. eauto.
  - exists result. exact Hrun.
Defined.
